(** * Practice Buddy: the next-measure scheduler of [src/backend/app.py]

    Shallow embedding of the route [get_next_measure(song_id)]
    (GET /api/songs/<song_id>/next-measure), together with the parts of the
    SQLite schema it reads ([songs], [measure_groups], [practice_sessions]).

    Modelling choices:
    - integer columns and Python ints are [Z];
    - the [practiced_at] column, a [datetime('now')] text in ISO format whose
      lexicographic order is the chronological one, is a [Z] time stamp, so
      that SQL [MAX] over it is [Z.max];
    - [GROUP_CONCAT(ps.rating)] followed by [.split(',')] is modelled as the
      list of the non-NULL ratings of the group; the CHECK constraint of the
      [rating] column keeps commas out of the ratings, so the split recovers
      exactly that list (NULL, i.e. no session, gives []);
    - a Python exception raised while handling the request (the
      [OverflowError] of binding a [song_id] outside the signed 64-bit range,
      the [KeyError] of [rating_scores[r]]) is [None] in the result of the
      handler;
    - [jsonify] output is a small JSON value type; the HTTP status is paired
      with it.

    The routes [log_practice], [clear_practice_sessions] and
    [next_to_practice] of [app.py] are embedded as functions on the same
    database, and
    the module [GenerateMeasures] embeds [src/scripts/generate_measures.py]
    ([normalize_name], the ranges of [process_song], [MeasureGroup],
    [get_measure_proficiencies], [categorize_measures], [get_next_measure]),
    where a Python exception is a constructor of [outcome]. *)

From Stdlib Require Import ZArith String List Bool Lia Sorted Permutation.
Import ListNotations.
Open Scope string_scope.
Open Scope Z_scope.
Set Warnings "-register-all".

(** ** JSON values produced by [jsonify] *)

Inductive json : Type :=
| JNull
| JInt (z : Z)
| JStr (s : string)
| JObj (kvs : list (string * json)).

(** Lookup of a key in a JSON object (first binding, as a dict has one). *)
Fixpoint assoc_lookup (k : string) (kvs : list (string * json)) : option json :=
  match kvs with
  | [] => None
  | (k', v) :: t => if String.eqb k k' then Some v else assoc_lookup k t
  end.

Definition json_get (k : string) (j : json) : option json :=
  match j with
  | JObj kvs => assoc_lookup k kvs
  | _ => None
  end.

Definition json_keys (j : json) : list string :=
  match j with
  | JObj kvs => map fst kvs
  | _ => []
  end.

(** ** Database tables (schema of [init_db] in app.py) *)

Record measure_group := MeasureGroup {
  mg_id : Z;
  mg_song_id : Z;
  start_measure : Z;
  end_measure : Z
}.

Record practice_session := PracticeSession {
  ps_id : Z;
  ps_song_id : Z;
  ps_measure_group_id : Z;
  practiced_at : Z;
  rating : string
}.

Record db := DB {
  songs : list Z;                       (** ids of the rows of [songs] *)
  measure_groups : list measure_group;
  practice_sessions : list practice_session
}.

(** The CHECK constraint of [practice_sessions.rating]:
    [rating IN ('easy','medium','hard','snooze')]. *)
Definition rating_check (r : string) : bool :=
  String.eqb r "easy" || String.eqb r "medium" ||
  String.eqb r "hard" || String.eqb r "snooze".


(** ** The aggregate query [measures_query]

<<
    SELECT mg.start_measure, GROUP_CONCAT(ps.rating) as ratings,
           COUNT(ps.id) as practice_count, MAX(ps.practiced_at) as last_practiced
    FROM measure_groups mg
    LEFT JOIN practice_sessions ps ON mg.id = ps.measure_group_id
    WHERE mg.song_id = ?
    GROUP BY mg.start_measure
    ORDER BY mg.start_measure
>> *)

Record row := Row {
  r_start_measure : Z;
  r_ratings : list string;
  r_practice_count : Z;
  r_last_practiced : option Z
}.

(** Insert into a strictly increasing list, dropping duplicates:
    the GROUP BY keys in ORDER BY order. *)
Fixpoint insert_key (x : Z) (l : list Z) : list Z :=
  match l with
  | [] => [x]
  | y :: t =>
      if x <? y then x :: l
      else if x =? y then l
      else y :: insert_key x t
  end.

Definition group_keys (gs : list measure_group) : list Z :=
  fold_right insert_key [] (map start_measure gs).

(** [WHERE mg.song_id = ?] *)
Definition song_groups (d : db) (song_id : Z) : list measure_group :=
  filter (fun g => mg_song_id g =? song_id) (measure_groups d).

(** The sessions joined to one group: [ON mg.id = ps.measure_group_id]. *)
Definition joined_sessions (d : db) (g : measure_group) : list practice_session :=
  filter (fun ps => ps_measure_group_id ps =? mg_id g) (practice_sessions d).

(** The non-NULL session columns of one GROUP BY bucket. *)
Definition bucket_sessions (d : db) (gs : list measure_group) (s : Z)
  : list practice_session :=
  flat_map (joined_sessions d) (filter (fun g => start_measure g =? s) gs).

Definition sql_max (xs : list Z) : option Z :=
  match xs with
  | [] => None
  | x :: t => Some (fold_left Z.max t x)
  end.

Definition aggregate (d : db) (gs : list measure_group) (s : Z) : row :=
  let pss := bucket_sessions d gs s in
  Row s (map rating pss) (Z.of_nat (List.length pss)) (sql_max (map practiced_at pss)).

Definition measures_query (d : db) (song_id : Z) : list row :=
  let gs := song_groups d song_id in
  map (aggregate d gs) (group_keys gs).

(** ** Per-row processing in Python *)

(** [rating_scores[r]]: a dict lookup, [None] is the [KeyError]. *)
Definition rating_scores (r : string) : option Z :=
  if String.eqb r "easy" then Some 3
  else if String.eqb r "medium" then Some 2
  else if String.eqb r "hard" then Some 1
  else if String.eqb r "snooze" then Some 0
  else None.

Fixpoint scores (rs : list string) : option (list Z) :=
  match rs with
  | [] => Some []
  | r :: t =>
      match rating_scores r with
      | None => None
      | Some x => match scores t with None => None | Some xs => Some (x :: xs) end
      end
  end.

(** [max((rating_scores[r] for r in ratings), default=0)] *)
Definition py_max_default (xs : list Z) : Z :=
  match xs with
  | [] => 0
  | x :: t => fold_left Z.max t x
  end.

Definition best_rating_of (rs : list string) : option Z :=
  match scores rs with
  | None => None
  | Some xs => Some (py_max_default xs)
  end.

(** The three categories the code assigns. *)
Inductive category := Unlearned | Challenging | Proficient.

Definition category_name (c : category) : string :=
  match c with
  | Unlearned => "unlearned"
  | Challenging => "challenging"
  | Proficient => "proficient"
  end.

Definition category_of (best_rating : Z) : category :=
  if 3 <=? best_rating then Proficient
  else if 2 <=? best_rating then Challenging
  else Unlearned.

Record measure := Measure {
  m_measure : Z;
  m_category : category;
  m_best_rating : Z;
  m_practice_count : Z;
  m_last_practiced : option Z
}.

Definition process_row (r : row) : option measure :=
  match best_rating_of (r_ratings r) with
  | None => None
  | Some b =>
      Some (Measure (r_start_measure r) (category_of b) b
                    (r_practice_count r) (r_last_practiced r))
  end.

Fixpoint process_rows (rs : list row) : option (list measure) :=
  match rs with
  | [] => Some []
  | r :: t =>
      match process_row r with
      | None => None
      | Some m => match process_rows t with None => None | Some ms => Some (m :: ms) end
      end
  end.

(** ** The learning window *)

Definition is_measure_learned (m : measure) : bool := 2 <=? m_best_rating m.

Definition learned_count (ms : list measure) : nat :=
  List.length (filter is_measure_learned ms).

(** [window_size = 5]; grow by 3 when there are more than 5 measures and all
    of the first 5 are learned; then [min(len(measures), window_size)]. *)
Definition window_size (ms : list measure) : nat :=
  let w := 5%nat in
  let w :=
    if Nat.ltb w (List.length ms) then
      if Nat.eqb (learned_count (firstn w ms)) w then (w + 3)%nat else w
    else w in
  Nat.min (List.length ms) w.

Definition eligible_measures (ms : list measure) : list measure :=
  firstn (window_size ms) ms.

(** ** Selection: [min(eligible_measures, key=measure_priority)] *)

Definition category_score (c : category) : Z :=
  match c with
  | Unlearned => 0
  | Challenging => 1
  | Proficient => 2
  end.

Definition measure_priority (m : measure) : Z * Z * Z :=
  (category_score (m_category m), m_practice_count m, m_measure m).

(** Python tuple comparison [<] on triples of ints. *)
Definition tuple_lt (a b : Z * Z * Z) : bool :=
  let '(a1, a2, a3) := a in
  let '(b1, b2, b3) := b in
  (a1 <? b1) || ((a1 =? b1) && ((a2 <? b2) || ((a2 =? b2) && (a3 <? b3)))).

(** [min]: keep the current item, replace it only by a strictly smaller one. *)
Fixpoint min_from (cur : measure) (l : list measure) : measure :=
  match l with
  | [] => cur
  | y :: t =>
      min_from (if tuple_lt (measure_priority y) (measure_priority cur) then y else cur) t
  end.

Definition py_min (l : list measure) : option measure :=
  match l with
  | [] => None
  | x :: t => Some (min_from x t)
  end.

(** ** The route handler *)

(** sqlite3 binds a Python int as a signed 64-bit SQLite INTEGER and raises
    [OverflowError] for any other int. *)
Definition sqlite_int_ok (z : Z) : bool := (- 2 ^ 63 <=? z) && (z <=? 2 ^ 63 - 1).


Definition opt_int (o : option Z) : json :=
  match o with Some z => JInt z | None => JNull end.

Definition measure_response (m : measure) : json :=
  JObj [("measure", JInt (m_measure m));
        ("stats", JObj [("category", JStr (category_name (m_category m)));
                        ("best_rating", JInt (m_best_rating m));
                        ("practice_count", JInt (m_practice_count m));
                        ("last_practiced", opt_int (m_last_practiced m))])].

Definition not_found_response : Z * json :=
  (404, JObj [("error", JStr "Song not found")]).

Definition default_response : Z * json := (200, JObj [("measure", JInt 1)]).

(** The catalog of measures built for a request ([None]: [KeyError]). *)
Definition measures_of (d : db) (song_id : Z) : option (list measure) :=
  process_rows (measures_query d song_id).

(** [None]: the handler raises.  Binding [song_id] in the first query
    ([SELECT * FROM songs WHERE id = ?]) raises [OverflowError] outside the
    signed 64-bit range; the route's [<int:song_id>] converter accepts any
    string of digits, so such ids do reach the handler. *)
Definition get_next_measure (d : db) (song_id : Z) : option (Z * json) :=
  if negb (sqlite_int_ok song_id) then None
  else if negb (existsb (Z.eqb song_id) (songs d)) then Some not_found_response
  else
    match measures_of d song_id with
    | None => None
    | Some ms =>
        match py_min (eligible_measures ms) with
        | None => Some default_response
        | Some m => Some (200, measure_response m)
        end
    end.

(** ** The 4-level rank of the claims, for comparison with [category_score]

    Following the claims' words, not the code: unlearned (best rating 0) = 0,
    needs_practice (best rating 1) = 1, decent (best rating 2) = 2,
    proficient (best rating at least 3) = 3. *)
Definition claimed_category_rank (best_rating : Z) : Z :=
  if 3 <=? best_rating then 3
  else if 2 <=? best_rating then 2
  else if 1 <=? best_rating then 1
  else 0.

Definition claimed_priority (m : measure) : Z * Z * Z :=
  (claimed_category_rank (m_best_rating m), m_practice_count m, m_measure m).

(** ** Comparing two catalogs entry by entry *)

Definition best_le (a b : measure) : Prop := m_best_rating a <= m_best_rating b.

(** [ratings_le ms ms']: same length, and every best rating of [ms] is at
    most the one at the same position in [ms'] (more ratings recorded). *)
Fixpoint ratings_le (ms ms' : list measure) : bool :=
  match ms, ms' with
  | [], [] => true
  | a :: t, b :: t' => (m_best_rating a <=? m_best_rating b) && ratings_le t t'
  | _, _ => false
  end.

(** ** Sample catalogs *)

(** Nine entries, each rated [hard] once. *)
Definition catalog_hard9 : list measure :=
  map (fun k => Measure k Unlearned 1 1 None) [1;2;3;4;5;6;7;8;9].

(** The same nine entries after a [medium] rating each. *)
Definition catalog_medium9 : list measure :=
  map (fun k => Measure k Challenging 2 2 None) [1;2;3;4;5;6;7;8;9].

(** The catalog built for [db_ten_mastered] below. *)
Definition catalog_ten_mastered : list measure :=
  map (fun k => Measure k Proficient 3 1 (Some (100 + k))) [1;2;3;4;5;6;7;8;9;10].

(** ** Sample databases (song 1) *)

(** Two single measures; measure 1 rated [hard] twice, measure 2 never. *)
Definition db_two_singles : db :=
  DB [1]
     [MeasureGroup 10 1 1 1; MeasureGroup 11 1 2 2]
     [PracticeSession 1 1 10 100 "hard"; PracticeSession 2 1 10 101 "hard"].

(** Measure 1 mastered ([easy]), measure 2 never practiced. *)
Definition db_first_mastered : db :=
  DB [1]
     [MeasureGroup 10 1 1 1; MeasureGroup 11 1 2 2]
     [PracticeSession 1 1 10 100 "easy"].

(** Measure 1 rated [hard] once, measure 2 rated [snooze] once. *)
Definition db_hard_snooze : db :=
  DB [1]
     [MeasureGroup 10 1 1 1; MeasureGroup 11 1 2 2]
     [PracticeSession 1 1 10 100 "hard"; PracticeSession 2 1 11 101 "snooze"].

(** One single measure 3 and one group 3..5 sharing its start,
    each practised once. *)
Definition db_overlap : db :=
  DB [1]
     [MeasureGroup 10 1 3 3; MeasureGroup 11 1 3 5]
     [PracticeSession 1 1 10 100 "hard"; PracticeSession 2 1 11 101 "easy"].

(** A single group 2..4 with id 7, never practised. *)
Definition db_one_group : db :=
  DB [1] [MeasureGroup 7 1 2 4] [].

(** Ten single measures, all mastered: the window is still 8. *)
Definition db_ten_mastered : db :=
  DB [1]
     (map (fun k => MeasureGroup (10 + k) 1 k k) [1;2;3;4;5;6;7;8;9;10])
     (map (fun k => PracticeSession k 1 (10 + k) (100 + k) "easy")
          [1;2;3;4;5;6;7;8;9;10]).

(** * The other routes of [src/backend/app.py]

    The payload of [log_practice] is modelled as a record of the fields the
    route reads ([data.get(...)]), with [None] for a missing key; its ids
    and measure number are JSON numbers.  The id that SQLite assigns to an
    inserted row (AUTOINCREMENT) and the [datetime('now')] default are
    arguments of the route.  Columns the scheduler never reads
    ([duration_seconds], [notes], ...) are not stored.  The query arguments
    of [next_to_practice] are strings. *)

(** Python truthiness of a JSON value. *)
Definition py_truthy (j : json) : bool :=
  match j with
  | JNull => false
  | JInt z => negb (z =? 0)
  | JStr s => negb (String.eqb s "")
  | JObj [] => false
  | JObj _ => true
  end.

(** Truthiness of an optional JSON number ([None]: key missing). *)
Definition opt_truthy (o : option Z) : bool :=
  match o with
  | Some z => negb (z =? 0)
  | None => false
  end.

(** The value of an optional JSON number field, 0 when missing. *)
Definition int_or_0 (o : option Z) : Z :=
  match o with Some z => z | None => 0 end.

(** ** [log_practice] (POST /api/practice) *)

Record practice_payload := PracticePayload {
  pp_rating : option json;
  pp_difficulty : option json;
  pp_song_id : option Z;
  pp_measure_group_id : option Z;
  pp_filename : option string;
  pp_measure : option Z
}.

(** [data.get("rating") or data.get("difficulty")] *)
Definition rating_field (data : practice_payload) : option json :=
  match pp_rating data with
  | Some j => if py_truthy j then Some j else pp_difficulty data
  | None => pp_difficulty data
  end.

(** [SELECT * FROM measure_groups WHERE song_id = ? AND start_measure <= ?
    AND end_measure >= ? LIMIT 1], the first matching row in table order. *)
Definition group_containing (d : db) (song_id measure : Z) : option measure_group :=
  find (fun g => (mg_song_id g =? song_id) && (start_measure g <=? measure) &&
                 (measure <=? end_measure g))
       (measure_groups d).

Definition rating_error : Z * json :=
  (400, JObj [("error", JStr "rating required and must be one of easy/medium/hard/snooze")]).

Definition ids_error : Z * json :=
  (400, JObj [("error", JStr "song_id and measure_group_id required (or provide filename/measure that can be resolved)")]).

Section LogPractice.

(** The song found from a file name: its basename with extension and
    [_measure_] suffix stripped, matched by [source_file LIKE '%...%']
    against the [songs] table ([LIMIT 1]).  The routes below hold for any
    such lookup. *)
Variable song_for_filename : string -> option Z.

(** The best-effort resolution of the ids when one of them is missing. *)
Definition resolve_ids (d : db) (data : practice_payload) : option Z * option Z :=
  let song_id := pp_song_id data in
  let measure_group_id := pp_measure_group_id data in
  if negb (opt_truthy song_id) || negb (opt_truthy measure_group_id) then
    let song_id :=
      match pp_filename data with
      | Some f =>
          if negb (String.eqb f "") then
            match song_for_filename f with Some s => Some s | None => song_id end
          else song_id
      | None => song_id
      end in
    let measure_group_id :=
      if opt_truthy song_id && opt_truthy (pp_measure data) then
        match group_containing d (int_or_0 song_id) (int_or_0 (pp_measure data)) with
        | Some g => Some (mg_id g)
        | None => measure_group_id
        end
      else measure_group_id in
    (song_id, measure_group_id)
  else (song_id, measure_group_id).

Definition log_practice (d : db) (data : practice_payload) (new_id now : Z)
  : db * (Z * json) :=
  match rating_field data with
  | Some (JStr r) =>
      if negb (rating_check r) then (d, rating_error)
      else
        let '(song_id, measure_group_id) := resolve_ids d data in
        if negb (opt_truthy song_id) || negb (opt_truthy measure_group_id) then
          (d, ids_error)
        else
          (DB (songs d) (measure_groups d)
              (practice_sessions d ++
                 [PracticeSession new_id (int_or_0 song_id) (int_or_0 measure_group_id)
                                  now r]),
           (201, JObj [("id", JInt new_id)]))
  | _ => (d, rating_error)
  end.

End LogPractice.

(** ** [clear_practice_sessions] (DELETE /api/practice-sessions) *)

Definition clear_practice_sessions (d : db) : db * (Z * json) :=
  (DB (songs d) (measure_groups d) [], (200, JObj [("status", JStr "ok")])).

(** ** [next_to_practice] (GET /api/next)

<<
    SELECT mg.*, s.source_file,
      (SELECT COUNT( * ) FROM practice_sessions ps WHERE ps.measure_group_id = mg.id)
        AS practice_count
    FROM measure_groups mg JOIN songs s ON s.id = mg.song_id
    [WHERE mg.song_id = ?] ORDER BY practice_count ASC, mg.created_at ASC LIMIT ?
>>
    Rows are sorted by practice count with ties in table order (insertion
    order, that is [created_at] order); a negative [LIMIT] means no limit in
    SQLite.

    The query arguments are strings ([None]: absent).  Two of the
    operations the route applies to them are parameters of the model, so
    that what is proved holds whatever they compute:
    - [py_int s], Python's [int(s)] of the [limit] argument ([None]: it
      raises [ValueError]);
    - [song_matches s v], SQLite's [mg.song_id = ?] between the INTEGER
      column value [v] and the text parameter [s] of a non-empty [song_id]
      argument (the column's affinity applies to the text). *)

Definition group_practice_count (d : db) (g : measure_group) : Z :=
  Z.of_nat (List.length (joined_sessions d g)).

Fixpoint insert_by_count (r : measure_group * Z) (l : list (measure_group * Z))
  : list (measure_group * Z) :=
  match l with
  | [] => [r]
  | x :: t => if snd x <=? snd r then x :: insert_by_count r t else r :: l
  end.

Definition sql_limit {A} (limit : Z) (l : list A) : list A :=
  if limit <? 0 then l else firstn (Z.to_nat limit) l.

Section NextToPractice.

Variable py_int : string -> option Z.
Variable song_matches : string -> Z -> bool.

(** [if song_id_filter: q += " WHERE mg.song_id = ?"] *)
Definition song_filter (song_arg : option string) (g : measure_group) : bool :=
  match song_arg with
  | Some s => if String.eqb s "" then true else song_matches s (mg_song_id g)
  | None => true
  end.

Definition next_rows (d : db) (song_arg : option string) (limit : Z)
  : list (measure_group * Z) :=
  let gs := filter (fun g => existsb (Z.eqb (mg_song_id g)) (songs d)) (measure_groups d) in
  let gs := filter (song_filter song_arg) gs in
  sql_limit limit
    (fold_right insert_by_count [] (map (fun g => (g, group_practice_count d g)) (rev gs))).

(** [file_candidates_from_song_and_measure(song_row, start)] is called with
    the [sqlite3.Row] [r]; its first statement [song_row.get("source_file")]
    raises [AttributeError], as [sqlite3.Row] has no [get] method.  [None]
    is that exception. *)
Definition file_candidates_from_row (r : measure_group * Z) : option (list string) :=
  None.

Fixpoint filenames_of (rows : list (measure_group * Z)) : option (list string) :=
  match rows with
  | [] => Some []
  | r :: t =>
      match file_candidates_from_row r with
      | None => None
      | Some cs =>
          match filenames_of t with
          | None => None
          | Some fs => Some (hd "" cs :: fs)
          end
      end
  end.

(** [None]: the request fails with an exception (HTTP 500):
    [int(request.args.get("limit", 10))] raises [ValueError], binding the
    [LIMIT] parameter raises [OverflowError], or a row reaches
    [file_candidates_from_song_and_measure]. *)
Definition next_to_practice (d : db) (limit_arg song_arg : option string)
  : option (list string) :=
  let limit := match limit_arg with Some s => py_int s | None => Some 10 end in
  match limit with
  | None => None
  | Some limit =>
      if negb (sqlite_int_ok limit) then None
      else filenames_of (next_rows d song_arg limit)
  end.

End NextToPractice.

(** * The practice helpers of [src/scripts/generate_measures.py]

    A second, older scheduler over the same tables, with four proficiency
    levels, and the naming and range enumeration of [process_song].  Python
    dicts are association lists in insertion order; a Python [set] is a
    list without duplicates in insertion order, and its iteration order,
    which CPython does not tie to insertion, is the parameter
    [iter_order]. *)

Module GenerateMeasures.

(** ** [normalize_name]

    Strings are lists of Unicode code points. *)

Definition dash : Z := 45.
Definition dot : Z := 46.

(** [str.rfind(c)]: the last index of [c], or -1. *)
Fixpoint rfind_from (c : Z) (i : Z) (s : list Z) (acc : Z) : Z :=
  match s with
  | [] => acc
  | x :: t => rfind_from c (i + 1) t (if x =? c then i else acc)
  end.

Definition rfind (c : Z) (s : list Z) : Z := rfind_from c 0 s (-1).

(** [Path(name).stem] for a name without a separator (CPython 3.12:
    [i = name.rfind('.')]; [name[:i] if 0 < i < len(name) - 1 else name]). *)
Definition stem (name : list Z) : list Z :=
  let i := rfind dot name in
  if (0 <? i) && (i <? Z.of_nat (List.length name) - 1)
  then firstn (Z.to_nat i) name else name.

(** [[a-zA-Z0-9]] *)
Definition is_alnum (c : Z) : bool :=
  ((48 <=? c) && (c <=? 57)) || ((65 <=? c) && (c <=? 90)) || ((97 <=? c) && (c <=? 122)).

(** [re.sub(r'[^a-zA-Z0-9]+', '-', s)]: each maximal run of other
    characters becomes one dash; [in_run] says the previous character
    belonged to such a run. *)
Fixpoint sub_runs (in_run : bool) (s : list Z) : list Z :=
  match s with
  | [] => []
  | c :: t =>
      if is_alnum c then c :: sub_runs false t
      else if in_run then sub_runs true t
      else dash :: sub_runs true t
  end.

(** [str.lower()] on what [sub_runs] leaves: ASCII letters, digits and
    dashes (only [A-Z] changes). *)
Definition lower (s : list Z) : list Z :=
  map (fun c => if (65 <=? c) && (c <=? 90) then c + 32 else c) s.

Fixpoint lstrip_dash (s : list Z) : list Z :=
  match s with
  | c :: t => if c =? dash then lstrip_dash t else s
  | [] => []
  end.

(** [str.strip('-')] *)
Definition strip_dash (s : list Z) : list Z :=
  rev (lstrip_dash (rev (lstrip_dash s))).

Definition normalize_name (filename : list Z) : list Z :=
  let base := stem filename in
  let normalized := lower (sub_runs false base) in
  strip_dash normalized.

(** The shape of a normalized name: lower-case letters, digits and dashes,
    no dash first or last, no two dashes in a row. *)
Definition name_char (c : Z) : bool :=
  ((97 <=? c) && (c <=? 122)) || ((48 <=? c) && (c <=? 57)) || (c =? dash).

Fixpoint no_double_dash (s : list Z) : bool :=
  match s with
  | [] => true
  | c :: t => negb ((c =? dash) && (hd 0 t =? dash)) && no_double_dash t
  end.

Definition starts_with_dash (s : list Z) : bool :=
  match s with c :: _ => c =? dash | [] => false end.

Definition clean_name (s : list Z) : bool :=
  forallb name_char s && no_double_dash s &&
  negb (starts_with_dash s) && negb (starts_with_dash (rev s)).

(** ** The ranges visited by [process_song] *)

(** [range(a, b)] *)
Definition py_range (a b : Z) : list Z :=
  map (fun k => a + Z.of_nat k) (seq 0 (Z.to_nat (b - a))).

(** [for num in range(1, total_measures + 1)] *)
Definition single_measures (total_measures : Z) : list Z :=
  py_range 1 (total_measures + 1).

(** [for size in [2, 3]: for start in range(1, total_measures - size + 2):
    end = start + size - 1] *)
Definition combination_ranges (total_measures : Z) : list (Z * Z) :=
  flat_map (fun size =>
              map (fun start => (start, start + size - 1))
                  (py_range 1 (total_measures - size + 2)))
           [2; 3].

(** ** [ProficiencyLevel] and [MeasureGroup] *)

Inductive ProficiencyLevel := PROFICIENT | DECENT | NEEDS_PRACTICE | UNLEARNED.

Definition level_value (l : ProficiencyLevel) : Z :=
  match l with PROFICIENT => 4 | DECENT => 3 | NEEDS_PRACTICE => 2 | UNLEARNED => 1 end.

Definition level_eqb (a b : ProficiencyLevel) : bool := level_value a =? level_value b.

Record MeasureGroup := MkMeasureGroup {
  id : Z;
  start : Z;
  end_ : Z;
  all_ratings : list string
}.

Definition size (g : MeasureGroup) : Z := end_ g - start g + 1.

(** [self.all_ratings[-n:] if len(self.all_ratings) >= n else []] (n >= 1) *)
Definition last_n_ratings (g : MeasureGroup) (n : nat) : list string :=
  let len := List.length (all_ratings g) in
  if Nat.leb n len then skipn (len - n) (all_ratings g) else [].

Definition proficiency (g : MeasureGroup) : ProficiencyLevel :=
  match all_ratings g with
  | [] => UNLEARNED
  | _ =>
      if existsb (fun r => String.eqb r "hard") (all_ratings g) then NEEDS_PRACTICE
      else if forallb (fun r => String.eqb r "easy") (last_n_ratings g 3) then PROFICIENT
      else if forallb (fun r => String.eqb r "easy" || String.eqb r "medium")
                      (last_n_ratings g 2) then DECENT
      else NEEDS_PRACTICE
  end.

(** ** [get_measure_proficiencies] *)

Definition groups_dict := list (Z * MeasureGroup).

Fixpoint dict_lookup (k : Z) (m : groups_dict) : option MeasureGroup :=
  match m with
  | [] => None
  | (k', v) :: t => if k' =? k then Some v else dict_lookup k t
  end.

(** [groups[k] = v]: replaced in place, or appended. *)
Fixpoint dict_set (k : Z) (v : MeasureGroup) (m : groups_dict) : groups_dict :=
  match m with
  | [] => [(k, v)]
  | (k', v') :: t => if k' =? k then (k', v) :: t else (k', v') :: dict_set k v t
  end.

(** [groups[k].all_ratings.append(r)] *)
Definition append_rating (k : Z) (r : string) (m : groups_dict) : groups_dict :=
  map (fun '(k', g) =>
         if k' =? k then (k', MkMeasureGroup (id g) (start g) (end_ g) (all_ratings g ++ [r]))
         else (k', g)) m.

(** [ORDER BY practiced_at ASC], ties in table order. *)
Fixpoint insert_by_time (ps : practice_session) (l : list practice_session)
  : list practice_session :=
  match l with
  | [] => [ps]
  | x :: t => if practiced_at x <=? practiced_at ps then x :: insert_by_time ps t else ps :: l
  end.

(** [SELECT id, start_measure, end_measure FROM measure_groups WHERE song_id = ?] *)
Definition group_rows (d : db) (song_id : Z) : list measure_group :=
  filter (fun g => mg_song_id g =? song_id) (measure_groups d).

(** [groups[row['id']] = MeasureGroup(row['id'], row['start_measure'], row['end_measure'])] *)
Definition add_group (acc : groups_dict) (g : measure_group) : groups_dict :=
  dict_set (mg_id g) (MkMeasureGroup (mg_id g) (start_measure g) (end_measure g) []) acc.

(** [SELECT measure_group_id, rating FROM practice_sessions WHERE song_id = ?
    ORDER BY practiced_at ASC] *)
Definition practice_rows (d : db) (song_id : Z) : list practice_session :=
  fold_right insert_by_time []
             (rev (filter (fun ps => ps_song_id ps =? song_id) (practice_sessions d))).

(** The order [ORDER BY practiced_at ASC] asks for. *)
Definition by_time (a b : practice_session) : Prop := practiced_at a <= practiced_at b.

(** [if row['measure_group_id'] in groups: groups[...].all_ratings.append(row['rating'])] *)
Definition add_practice (acc : groups_dict) (ps : practice_session) : groups_dict :=
  match dict_lookup (ps_measure_group_id ps) acc with
  | Some _ => append_rating (ps_measure_group_id ps) (rating ps) acc
  | None => acc
  end.

Definition get_measure_proficiencies (d : db) (song_id : Z) : groups_dict :=
  let groups := fold_left add_group (group_rows d song_id) [] in
  fold_left add_practice (practice_rows d song_id) groups.

(** ** [categorize_measures] and [get_next_measure] *)

(** A result, or the exception raised. *)
Inductive outcome (A : Type) :=
| Ret (a : A)
| TypeError
| KeyError
| ValueError
| StopIteration
| OverflowError.
Arguments Ret {A} a.
Arguments TypeError {A}.
Arguments KeyError {A}.
Arguments ValueError {A}.
Arguments StopIteration {A}.
Arguments OverflowError {A}.

Record buckets := Buckets {
  b_proficient : list Z;
  b_decent : list Z;
  b_needs_practice : list Z;
  b_unlearned : list Z
}.

Definition empty_buckets : buckets := Buckets [] [] [] [].

Definition bucket (b : buckets) (l : ProficiencyLevel) : list Z :=
  match l with
  | PROFICIENT => b_proficient b
  | DECENT => b_decent b
  | NEEDS_PRACTICE => b_needs_practice b
  | UNLEARNED => b_unlearned b
  end.

(** [set.add] *)
Definition set_add (x : Z) (s : list Z) : list Z :=
  if existsb (Z.eqb x) s then s else s ++ [x].

(** [buckets[l].add(x)] *)
Definition add_to (b : buckets) (l : ProficiencyLevel) (x : Z) : buckets :=
  match l with
  | PROFICIENT => Buckets (set_add x (b_proficient b)) (b_decent b) (b_needs_practice b) (b_unlearned b)
  | DECENT => Buckets (b_proficient b) (set_add x (b_decent b)) (b_needs_practice b) (b_unlearned b)
  | NEEDS_PRACTICE => Buckets (b_proficient b) (b_decent b) (set_add x (b_needs_practice b)) (b_unlearned b)
  | UNLEARNED => Buckets (b_proficient b) (b_decent b) (b_needs_practice b) (set_add x (b_unlearned b))
  end.

(** The single groups inside a multi-measure group. *)
Definition component_measures (groups : groups_dict) (group : MeasureGroup) : groups_dict :=
  filter (fun '(_, g) => (size g =? 1) && (start group <=? start g) && (end_ g <=? end_ group))
         groups.

(** One multi-measure group.  [all(m.proficiency >= ProficiencyLevel.DECENT
    for m in ...)] compares two members of a plain [Enum], which defines no
    order: the first comparison raises [TypeError], so the [all] is [True]
    only for an empty component set. *)
Definition categorize_multi (groups : groups_dict) (acc : outcome buckets)
  (e : Z * MeasureGroup) : outcome buckets :=
  match acc with
  | Ret b =>
      let '(i, group) := e in
      match component_measures groups group with
      | _ :: _ => TypeError
      | [] =>
          if level_eqb (proficiency group) UNLEARNED then Ret (add_to b NEEDS_PRACTICE i)
          else Ret (add_to b (proficiency group) i)
      end
  | other => other
  end.

Definition categorize_single (b : buckets) (e : Z * MeasureGroup) : buckets :=
  let '(i, group) := e in
  if level_eqb (proficiency group) UNLEARNED then
    match b_needs_practice b with
    | [] => add_to b NEEDS_PRACTICE i
    | _ => add_to b UNLEARNED i
    end
  else add_to b (proficiency group) i.

Definition categorize_measures (groups : groups_dict) : outcome buckets :=
  let multi_measures := filter (fun '(_, g) => 1 <? size g) groups in
  match fold_left (categorize_multi groups) multi_measures (Ret empty_buckets) with
  | Ret b =>
      let single_measures := filter (fun '(_, g) => size g =? 1) groups in
      Ret (fold_left categorize_single single_measures b)
  | TypeError => TypeError
  | KeyError => KeyError
  | ValueError => ValueError
  | StopIteration => StopIteration
  | OverflowError => OverflowError
  end.

(** What [categorize_measures] keeps true of its buckets: an id is in the
    UNLEARNED bucket only if NEEDS_PRACTICE is not empty, and every id names
    an entry of [groups] of size at least 1. *)
Definition buckets_inv (groups : groups_dict) (b : buckets) : Prop :=
  (b_unlearned b <> [] -> b_needs_practice b <> []) /\
  forall l x, In x (bucket b l) -> exists g, In (x, g) groups /\ 1 <= size g.

Section NextMeasure.

(** The order in which a set yields its elements. *)
Variable iter_order : list Z -> list Z.

(** [len(groups[id].all_ratings)] for each id, or [KeyError]. *)
Fixpoint keyed (groups : groups_dict) (ids : list Z) : option (list (Z * nat)) :=
  match ids with
  | [] => Some []
  | i :: t =>
      match dict_lookup i groups, keyed groups t with
      | Some g, Some kt => Some ((i, List.length (all_ratings g)) :: kt)
      | _, _ => None
      end
  end.

(** [min(ids, key=...)]: the first element with the least key. *)
Definition min_by_key (l : list (Z * nat)) : option Z :=
  match l with
  | [] => None
  | x :: t =>
      Some (fst (fold_left (fun cur y => if Nat.ltb (snd y) (snd cur) then y else cur) t x))
  end.

Definition pick_min (groups : groups_dict) (s : list Z) (level : ProficiencyLevel)
  : outcome (Z * ProficiencyLevel) :=
  match keyed groups (iter_order s) with
  | None => KeyError
  | Some l => match min_by_key l with Some i => Ret (i, level) | None => ValueError end
  end.

(** [next(iter(s))] *)
Definition py_next (s : list Z) : option Z :=
  match iter_order s with [] => None | x :: _ => Some x end.

(** The loop over the levels once the buckets are built. *)
Definition next_from_buckets (groups : groups_dict) (b : buckets)
  : outcome (Z * ProficiencyLevel) :=
  match b_needs_practice b with
  | _ :: _ => pick_min groups (b_needs_practice b) NEEDS_PRACTICE
  | [] =>
      match b_unlearned b with
      | _ :: _ => pick_min groups (b_unlearned b) UNLEARNED
      | [] =>
          match b_decent b with
          | _ :: _ =>
              match py_next (b_decent b) with
              | Some i => Ret (i, DECENT)
              | None => StopIteration
              end
          | [] =>
              match py_next (b_proficient b) with
              | Some i => Ret (i, PROFICIENT)
              | None => StopIteration
              end
          end
      end
  end.

(** The first query of [get_measure_proficiencies] binds [song_id]:
    outside the signed 64-bit range sqlite3 raises [OverflowError]. *)
Definition get_next_measure (d : db) (song_id : Z) : outcome (Z * ProficiencyLevel) :=
  if negb (sqlite_int_ok song_id) then OverflowError else
  let groups := get_measure_proficiencies d song_id in
  match categorize_measures groups with
  | Ret b => next_from_buckets groups b
  | TypeError => TypeError
  | KeyError => KeyError
  | ValueError => ValueError
  | StopIteration => StopIteration
  | OverflowError => OverflowError
  end.

End NextMeasure.

End GenerateMeasures.

(** * Lemmas *)

(** ** Lists *)

Lemma filter_length_le {A} (f : A -> bool) (l : list A) :
  (List.length (filter f l) <= List.length l)%nat.
Proof. induction l as [|a t IH]; simpl; [lia|destruct (f a); simpl; lia]. Qed.

Lemma filter_length_full {A} (f : A -> bool) (l : list A) :
  List.length (filter f l) = List.length l <-> forallb f l = true.
Proof.
  induction l as [|a t IH]; simpl; [tauto|].
  destruct (f a) eqn:E; simpl.
  - split; intro H; [apply IH; lia|apply IH in H; lia].
  - pose proof (filter_length_le f t). split; intro H'; [lia|discriminate].
Qed.

Lemma Forall2_firstn {A B} (R : A -> B -> Prop) n l l' :
  Forall2 R l l' -> Forall2 R (firstn n l) (firstn n l').
Proof.
  intro H. revert n. induction H as [|a b t t' Hab Ht IH]; intro n.
  - rewrite !firstn_nil. constructor.
  - destruct n; simpl; constructor; auto.
Qed.

Lemma In_firstn {A} n (l : list A) x : In x (firstn n l) -> In x l.
Proof.
  intro H. rewrite <- (firstn_skipn n l). apply in_or_app. left. exact H.
Qed.

Lemma StronglySorted_lt_NoDup (l : list Z) : StronglySorted Z.lt l -> NoDup l.
Proof.
  induction 1 as [|a t _ IH Hf]; constructor; auto.
  intro Hin. rewrite Forall_forall in Hf. specialize (Hf a Hin). lia.
Qed.

Lemma Sorted_lt_NoDup (l : list Z) : Sorted Z.lt l -> NoDup l.
Proof.
  intro H. apply StronglySorted_lt_NoDup.
  apply Sorted_StronglySorted; [intros x y z; lia|exact H].
Qed.

(** An entry at a position at or after [k] is not the image of any entry
    among the first [k], when the images are pairwise distinct. *)
Lemma firstn_nth_disjoint {A B} (f : A -> B) (l : list A) i k m m' :
  NoDup (map f l) -> nth_error l i = Some m -> (k <= i)%nat ->
  In m' (firstn k l) -> f m' <> f m.
Proof.
  revert i k. induction l as [|a t IH]; intros i k Hnd Hi Hk Hin.
  - destruct i; discriminate.
  - destruct k as [|k]; [contradiction|].
    destruct i as [|i]; [lia|]. simpl in *.
    inversion Hnd as [|? ? Hnot Hnd']; subst.
    destruct Hin as [<-|Hin].
    + intro Heq. apply Hnot. rewrite Heq.
      apply in_map. eapply nth_error_In; eauto.
    + apply (IH i k); auto; lia.
Qed.

(** ** The GROUP BY keys *)

Lemma insert_key_In x l y : In y (insert_key x l) <-> y = x \/ In y l.
Proof.
  induction l as [|a t IH]; simpl; [firstorder congruence|].
  destruct (Z.ltb_spec x a); simpl; [firstorder congruence|].
  destruct (Z.eqb_spec x a); simpl.
  - subst. firstorder congruence.
  - rewrite IH. firstorder congruence.
Qed.

Lemma insert_key_HdRel x y l :
  y < x -> HdRel Z.lt y l -> HdRel Z.lt y (insert_key x l).
Proof.
  intros Hyx Hd. destruct l as [|a t]; simpl; [constructor; exact Hyx|].
  inversion Hd; subst.
  destruct (x <? a); [constructor; exact Hyx|].
  destruct (x =? a); constructor; assumption.
Qed.

Lemma insert_key_sorted x l : Sorted Z.lt l -> Sorted Z.lt (insert_key x l).
Proof.
  induction l as [|a t IH]; intro Hs; simpl; [repeat constructor|].
  apply Sorted_inv in Hs as [Ht Hd].
  destruct (Z.ltb_spec x a).
  - constructor; [constructor; assumption|constructor; assumption].
  - destruct (Z.eqb_spec x a); [constructor; assumption|].
    constructor; [apply IH; exact Ht|].
    apply insert_key_HdRel; [lia|exact Hd].
Qed.

Lemma insert_key_not_nil x l : insert_key x l <> [].
Proof.
  destruct l as [|a t]; simpl; [discriminate|].
  destruct (x <? a); [discriminate|destruct (x =? a); discriminate].
Qed.

Lemma group_keys_sorted gs : Sorted Z.lt (group_keys gs).
Proof.
  unfold group_keys. induction (map start_measure gs) as [|a t IH]; simpl.
  - constructor.
  - apply insert_key_sorted, IH.
Qed.

Lemma group_keys_In gs s :
  In s (group_keys gs) <-> exists g, In g gs /\ start_measure g = s.
Proof.
  unfold group_keys.
  assert (Hk : forall l, In s (fold_right insert_key [] l) <-> In s l).
  { induction l as [|a t IH]; simpl; [tauto|]. rewrite insert_key_In, IH. firstorder congruence. }
  rewrite Hk, in_map_iff. firstorder.
Qed.

Lemma group_keys_nil gs : group_keys gs = [] -> gs = [].
Proof.
  unfold group_keys. destruct gs as [|g t]; simpl; [reflexivity|].
  intro H. exfalso. exact (insert_key_not_nil _ _ H).
Qed.

Lemma measures_query_starts d song_id :
  map r_start_measure (measures_query d song_id) = group_keys (song_groups d song_id).
Proof.
  unfold measures_query. rewrite map_map. simpl. apply map_id.
Qed.

(** ** Rating scores and the per-row processing *)

Lemma rating_scores_None r : rating_scores r = None <-> rating_check r = false.
Proof.
  unfold rating_scores, rating_check.
  destruct (String.eqb r "easy"); simpl; [split; discriminate|].
  destruct (String.eqb r "medium"); simpl; [split; discriminate|].
  destruct (String.eqb r "hard"); simpl; [split; discriminate|].
  destruct (String.eqb r "snooze"); simpl; split; congruence.
Qed.

Lemma rating_scores_Some r :
  rating_check r = true -> exists z, rating_scores r = Some z.
Proof.
  intro H. destruct (rating_scores r) as [z|] eqn:E; [eauto|].
  apply rating_scores_None in E. congruence.
Qed.

Lemma scores_Forall2 rs xs :
  scores rs = Some xs -> Forall2 (fun r x => rating_scores r = Some x) rs xs.
Proof.
  revert xs. induction rs as [|r t IH]; intros xs H; simpl in H.
  - injection H as <-. constructor.
  - destruct (rating_scores r) as [x|] eqn:E; [|discriminate].
    destruct (scores t) as [ys|]; [|discriminate].
    injection H as <-. constructor; auto.
Qed.

Lemma scores_valid rs :
  Forall (fun r => rating_check r = true) rs -> exists xs, scores rs = Some xs.
Proof.
  induction 1 as [|r t Hr _ [ys Hys]]; simpl; [eauto|].
  destruct (rating_scores_Some r Hr) as [x ->]. rewrite Hys. eauto.
Qed.

Lemma fold_max_ge t x : x <= fold_left Z.max t x.
Proof.
  revert x. induction t as [|a t IH]; intro x; simpl; [lia|].
  specialize (IH (Z.max x a)). lia.
Qed.

Lemma fold_max_upper t x y : In y (x :: t) -> y <= fold_left Z.max t x.
Proof.
  revert x. induction t as [|a t IH]; intros x Hin; simpl in *.
  - destruct Hin as [->|[]]. lia.
  - destruct Hin as [->|[->|Hin]].
    + pose proof (fold_max_ge t (Z.max y a)). lia.
    + pose proof (fold_max_ge t (Z.max x y)). lia.
    + apply IH. right. exact Hin.
Qed.

Lemma fold_max_In t x : In (fold_left Z.max t x) (x :: t).
Proof.
  revert x. induction t as [|a t IH]; intro x; simpl; [left; reflexivity|].
  destruct (IH (Z.max x a)) as [Hm|Hin].
  - rewrite <- Hm. destruct (Z.max_spec x a) as [[_ ->]|[_ ->]]; auto.
  - auto.
Qed.

Lemma process_row_fields r m :
  process_row r = Some m ->
  m_measure m = r_start_measure r /\ m_category m = category_of (m_best_rating m) /\
  m_practice_count m = r_practice_count r /\ m_last_practiced m = r_last_practiced r /\
  best_rating_of (r_ratings r) = Some (m_best_rating m).
Proof.
  unfold process_row. destruct (best_rating_of (r_ratings r)) as [b|]; [|discriminate].
  intro H. injection H as <-. simpl. auto.
Qed.

Lemma process_rows_Forall2 rs ms :
  process_rows rs = Some ms -> Forall2 (fun r m => process_row r = Some m) rs ms.
Proof.
  revert ms. induction rs as [|r t IH]; intros ms H; simpl in H.
  - injection H as <-. constructor.
  - destruct (process_row r) as [m|] eqn:E; [|discriminate].
    destruct (process_rows t) as [ms'|]; [|discriminate].
    injection H as <-. constructor; auto.
Qed.


Lemma measures_of_starts d song_id ms :
  measures_of d song_id = Some ms ->
  map m_measure ms = group_keys (song_groups d song_id).
Proof.
  unfold measures_of. intro H. apply process_rows_Forall2 in H.
  rewrite <- measures_query_starts.
  induction H as [|r m rs ms' Hrm _ IH]; simpl; [reflexivity|].
  rewrite IH. f_equal. apply (process_row_fields _ _ Hrm).
Qed.

Lemma measures_of_NoDup d song_id ms :
  measures_of d song_id = Some ms -> NoDup (map m_measure ms).
Proof.
  intro H. rewrite (measures_of_starts _ _ _ H).
  apply Sorted_lt_NoDup, group_keys_sorted.
Qed.

Lemma measures_of_fields d song_id ms m :
  measures_of d song_id = Some ms -> In m ms ->
  m_category m = category_of (m_best_rating m).
Proof.
  unfold measures_of. intros H Hin. apply process_rows_Forall2 in H.
  induction H as [|r m' rs ms' Hrm _ IH]; [destruct Hin|].
  destruct Hin as [<-|Hin]; [apply (process_row_fields _ _ Hrm)|auto].
Qed.

(** ** The window *)

Lemma window_size_eq ms :
  window_size ms =
  (if Nat.ltb 5 (List.length ms) && forallb is_measure_learned (firstn 5 ms)
   then Nat.min (List.length ms) 8 else Nat.min (List.length ms) 5).
Proof.
  unfold window_size, learned_count.
  destruct (Nat.ltb_spec 5 (List.length ms)) as [Hlt|Hge]; cbn [andb]; [|reflexivity].
  assert (Hl : List.length (firstn 5 ms) = 5%nat) by (rewrite length_firstn; lia).
  destruct (forallb is_measure_learned (firstn 5 ms)) eqn:F.
  - apply filter_length_full in F. rewrite F, Hl. reflexivity.
  - destruct (Nat.eqb_spec (List.length (filter is_measure_learned (firstn 5 ms))) 5)
      as [E|E]; [|reflexivity].
    assert (E' : List.length (filter is_measure_learned (firstn 5 ms)) =
                 List.length (firstn 5 ms)) by lia.
    apply filter_length_full in E'. congruence.
Qed.

Lemma window_size_le ms : (window_size ms <= List.length ms)%nat.
Proof. rewrite window_size_eq. destruct (_ && _); lia. Qed.

Lemma window_size_le_8 ms : (window_size ms <= 8)%nat.
Proof. rewrite window_size_eq. destruct (_ && _); lia. Qed.

Lemma window_size_pos ms : ms <> [] -> (1 <= window_size ms)%nat.
Proof.
  intro H. destruct ms as [|m t]; [congruence|].
  rewrite window_size_eq. simpl List.length. destruct (_ && _); lia.
Qed.

Lemma learned_mono l l' :
  Forall2 best_le l l' ->
  forallb is_measure_learned l = true -> forallb is_measure_learned l' = true.
Proof.
  induction 1 as [|a b t t' Hab _ IH]; simpl; [auto|].
  unfold is_measure_learned, best_le in *.
  intro H. apply andb_true_iff in H as [Ha Ht].
  apply andb_true_iff. split; [apply Z.leb_le in Ha; apply Z.leb_le; lia|auto].
Qed.

Lemma window_size_mono ms ms' :
  Forall2 best_le ms ms' -> (window_size ms <= window_size ms')%nat.
Proof.
  intro H. pose proof (Forall2_length H) as Hl.
  rewrite !window_size_eq, <- Hl.
  destruct (Nat.ltb 5 (List.length ms)); cbn [andb]; [|lia].
  destruct (forallb is_measure_learned (firstn 5 ms)) eqn:F; [|destruct (forallb is_measure_learned (firstn 5 ms')); lia].
  rewrite (learned_mono _ _ (Forall2_firstn _ 5 _ _ H) F). lia.
Qed.

Lemma eligible_nil ms : eligible_measures ms = [] -> ms = [].
Proof.
  unfold eligible_measures. intro H. destruct ms as [|m t]; [reflexivity|].
  pose proof (window_size_pos (m :: t) ltac:(discriminate)) as Hw.
  destruct (window_size (m :: t)) as [|w]; [lia|discriminate].
Qed.

(** ** Selection *)

Lemma tuple_lt_iff a1 a2 a3 b1 b2 b3 :
  tuple_lt (a1, a2, a3) (b1, b2, b3) = true <->
  a1 < b1 \/ a1 = b1 /\ (a2 < b2 \/ a2 = b2 /\ a3 < b3).
Proof.
  cbv beta iota zeta delta [tuple_lt].
  repeat first [rewrite orb_true_iff | rewrite andb_true_iff
               | rewrite Z.ltb_lt | rewrite Z.eqb_eq].
  tauto.
Qed.

Lemma tuple_nlt_iff a1 a2 a3 b1 b2 b3 :
  tuple_lt (a1, a2, a3) (b1, b2, b3) = false <->
  ~ (a1 < b1 \/ a1 = b1 /\ (a2 < b2 \/ a2 = b2 /\ a3 < b3)).
Proof.
  rewrite <- tuple_lt_iff. destruct (tuple_lt _ _); split; congruence.
Qed.

Ltac tuple_arith :=
  repeat match goal with
  | a : (Z * Z * Z)%type |- _ => destruct a as [[? ?] ?]
  end;
  repeat match goal with
  | H : tuple_lt _ _ = true |- _ => apply tuple_lt_iff in H
  | H : tuple_lt _ _ = false |- _ => apply tuple_nlt_iff in H
  end;
  first [apply tuple_nlt_iff | apply tuple_lt_iff | idtac]; lia.

Lemma tuple_lt_irrefl p : tuple_lt p p = false.
Proof. tuple_arith. Qed.

Lemma tuple_nlt_trans p q r :
  tuple_lt p q = false -> tuple_lt q r = false -> tuple_lt p r = false.
Proof. intros. tuple_arith. Qed.

Lemma tuple_lt_nlt p q r :
  tuple_lt p q = true -> tuple_lt p r = false -> tuple_lt q r = false.
Proof. intros. tuple_arith. Qed.

(** The minimum found by [min_from] is one of the items and no item is
    strictly smaller. *)
Lemma min_from_spec l cur :
  In (min_from cur l) (cur :: l) /\
  forall c, In c (cur :: l) ->
    tuple_lt (measure_priority c) (measure_priority (min_from cur l)) = false.
Proof.
  revert cur. induction l as [|y t IH]; intro cur; cbn [min_from].
  - split; [left; reflexivity|].
    intros c [<-|[]]. apply tuple_lt_irrefl.
  - destruct (tuple_lt (measure_priority y) (measure_priority cur)) eqn:E;
      [destruct (IH y) as [Hin Hmin]|destruct (IH cur) as [Hin Hmin]];
      (split; [simpl in Hin |- *; tauto|]);
      intros c [<-|[<-|Hc]]; try (apply Hmin; right; exact Hc).
    + eapply tuple_lt_nlt; [exact E|apply Hmin; left; reflexivity].
    + apply Hmin. left. reflexivity.
    + apply Hmin. left. reflexivity.
    + eapply tuple_nlt_trans; [exact E|apply Hmin; left; reflexivity].
Qed.

Lemma py_min_spec l m :
  py_min l = Some m ->
  In m l /\ forall c, In c l -> tuple_lt (measure_priority c) (measure_priority m) = false.
Proof.
  destruct l as [|x t]; simpl; [discriminate|].
  intro H. injection H as <-. apply min_from_spec.
Qed.

Lemma py_min_None l : py_min l = None -> l = [].
Proof. destruct l; simpl; congruence. Qed.

Lemma ratings_le_Forall2 ms ms' : ratings_le ms ms' = true -> Forall2 best_le ms ms'.
Proof.
  revert ms'. induction ms as [|a t IH]; intros [|b t'] H; simpl in H;
    try discriminate; constructor.
  - apply andb_true_iff in H as [H _]. apply Z.leb_le in H. exact H.
  - apply andb_true_iff in H as [_ H]. auto.
Qed.

(** ** The handler *)

Lemma song_known d song_id :
  existsb (Z.eqb song_id) (songs d) = true <-> In song_id (songs d).
Proof.
  rewrite existsb_exists. split.
  - intros [x [Hin Hx]]. apply Z.eqb_eq in Hx. subst. exact Hin.
  - intro Hin. exists song_id. split; [exact Hin|apply Z.eqb_refl].
Qed.

Lemma category_name_inj c c' : category_name c = category_name c' -> c = c'.
Proof. destruct c, c'; simpl; congruence. Qed.

Lemma measure_response_inj m m' : measure_response m = measure_response m' -> m = m'.
Proof.
  destruct m as [a b c e f], m' as [a' b' c' e' f']. unfold measure_response. simpl.
  intro H. injection H as Ha Hb Hc He Hf.
  apply category_name_inj in Hb. subst.
  destruct f, f'; simpl in Hf; try discriminate; [injection Hf as ->|]; reflexivity.
Qed.


Lemma get_next_measure_response d song_id c m :
  get_next_measure d song_id = Some (c, measure_response m) ->
  exists ms, measures_of d song_id = Some ms /\ py_min (eligible_measures ms) = Some m.
Proof.
  unfold get_next_measure.
  destruct (sqlite_int_ok song_id); simpl; [|discriminate].
  destruct (existsb (Z.eqb song_id) (songs d)); simpl; [|discriminate].
  destruct (measures_of d song_id) as [ms|] eqn:Ems; [|discriminate].
  destruct (py_min (eligible_measures ms)) as [m'|] eqn:Em; intro H.
  - apply (f_equal (fun o => match o with Some (_, b) => b | None => JNull end)) in H.
    cbv beta iota in H. apply measure_response_inj in H. subst. eauto.
  - discriminate.
Qed.

Lemma get_next_measure_default d song_id :
  get_next_measure d song_id = Some default_response ->
  In song_id (songs d) /\ song_groups d song_id = [].
Proof.
  unfold get_next_measure.
  destruct (sqlite_int_ok song_id); simpl; [|discriminate].
  destruct (existsb (Z.eqb song_id) (songs d)) eqn:E; simpl; [|discriminate].
  destruct (measures_of d song_id) as [ms|] eqn:Ems; [|discriminate].
  destruct (py_min (eligible_measures ms)) as [m'|] eqn:Em; intro H;
    [discriminate|].
  split; [apply song_known, E|].
  apply py_min_None, eligible_nil in Em. subst ms.
  apply measures_of_starts in Ems. apply group_keys_nil. rewrite <- Ems. reflexivity.
Qed.

(** * Claims *)

(** ** C1: the learning window *)

(** C1 (counterexample): the window is not grown one proficient measure at
    a time.  With two single measures, measure 1 rated [hard] twice (not
    proficient) and measure 2 never practised, the window already covers
    both measures (the claim's window would stop at 1), and measure 2 is
    recommended. *)
Lemma window_not_gated_by_proficiency_C1 :
  measures_of db_two_singles 1 =
    Some [Measure 1 Unlearned 1 2 (Some 101); Measure 2 Unlearned 0 0 None] /\
  window_size [Measure 1 Unlearned 1 2 (Some 101); Measure 2 Unlearned 0 0 None] = 2%nat /\
  get_next_measure db_two_singles 1 =
    Some (200, measure_response (Measure 2 Unlearned 0 0 None)).
Proof. split; [|split]; vm_compute; reflexivity. Qed.

(** C1 (amended): the window is [min(n, 5)], or [min(n, 8)] when there
    are more than 5 catalog entries and each of the first five has best
    rating at least 2; it never exceeds the number [n] of entries, is at
    least 1 for a non-empty catalog, and does not shrink when best ratings
    grow ([ratings_le ms ms'], e.g. as ratings accumulate). *)
Theorem window_size_rule_C1 (ms ms' : list measure)
  (Hle : ratings_le ms ms' = true) :
  window_size ms =
    (if Nat.ltb 5 (List.length ms) && forallb is_measure_learned (firstn 5 ms)
     then Nat.min (List.length ms) 8 else Nat.min (List.length ms) 5) /\
  (window_size ms <= List.length ms)%nat /\
  (ms <> [] -> (1 <= window_size ms)%nat) /\
  (window_size ms <= window_size ms')%nat.
Proof.
  split; [apply window_size_eq|].
  split; [apply window_size_le|].
  split; [apply window_size_pos|].
  apply window_size_mono, ratings_le_Forall2, Hle.
Qed.

Lemma window_size_rule_C1_witness :
  ratings_le catalog_hard9 catalog_medium9 = true /\
  window_size catalog_hard9 = 5%nat /\ window_size catalog_medium9 = 8%nat /\
  (window_size catalog_hard9 <= window_size catalog_medium9)%nat.
Proof.
  assert (H : ratings_le catalog_hard9 catalog_medium9 = true) by reflexivity.
  split; [exact H|]. split; [reflexivity|]. split; [reflexivity|].
  exact (proj2 (proj2 (proj2 (window_size_rule_C1 _ _ H)))).
Defined.

(** ** C2: the candidate set *)

(** C2 (counterexample): there are no eligibility tiers.  Measure 1 is
    proficient and measure 2 never practised: the claim's tier 1 is
    {measure 2}, but the candidate set of the code still contains the
    proficient measure 1. *)
Lemma proficient_entries_stay_candidates_C2 :
  measures_of db_first_mastered 1 =
    Some [Measure 1 Proficient 3 1 (Some 100); Measure 2 Unlearned 0 0 None] /\
  eligible_measures [Measure 1 Proficient 3 1 (Some 100); Measure 2 Unlearned 0 0 None] =
    [Measure 1 Proficient 3 1 (Some 100); Measure 2 Unlearned 0 0 None].
Proof. split; vm_compute; reflexivity. Qed.

(** C2 (amended): the candidate set is the first W entries of the
    start-ordered catalog, whatever their category: it has exactly W
    entries, the entry at each position below W is the catalog's entry at
    that position, and it is non-empty for a non-empty catalog. *)
Theorem candidates_are_window_prefix_C2 (ms : list measure) :
  List.length (eligible_measures ms) = window_size ms /\
  (forall i, (i < window_size ms)%nat ->
     nth_error (eligible_measures ms) i = nth_error ms i) /\
  (ms <> [] -> eligible_measures ms <> []).
Proof.
  unfold eligible_measures. pose proof (window_size_le ms) as Hle.
  split; [rewrite length_firstn; lia|].
  split.
  - intros i Hi. rewrite nth_error_firstn.
    destruct (Nat.ltb_spec i (window_size ms)); [reflexivity|lia].
  - intros Hne Heq. apply Hne. apply eligible_nil. exact Heq.
Qed.

(** ** C3: no random review *)

(** C3 (counterexample): the handler draws no random value.  With the
    proficient measure 1 among the candidates, whatever a draw would be
    (in particular one below 0.15), measure 2 is recommended, not a pick
    from the proficient bucket. *)
Lemma no_random_review_C3 :
  In (Measure 1 Proficient 3 1 (Some 100))
     (eligible_measures [Measure 1 Proficient 3 1 (Some 100); Measure 2 Unlearned 0 0 None]) /\
  get_next_measure db_first_mastered 1 =
    Some (200, measure_response (Measure 2 Unlearned 0 0 None)).
Proof. split; [vm_compute; left; reflexivity|vm_compute; reflexivity]. Qed.

Lemma NoDup_map_inj_in {A B} (f : A -> B) (l : list A) x y :
  NoDup (map f l) -> In x l -> In y l -> f x = f y -> x = y.
Proof.
  induction l as [|a t IH]; simpl; [intros _ []|].
  intros Hnd Hx Hy Hf. inversion Hnd as [|b u Hn Hnd']; subst.
  destruct Hx as [<-|Hx], Hy as [<-|Hy]; [reflexivity| | |exact (IH Hnd' Hx Hy Hf)].
  - exfalso. apply Hn. rewrite Hf. apply in_map, Hy.
  - exfalso. apply Hn. rewrite <- Hf. apply in_map, Hx.
Qed.

Lemma NoDup_firstn {A} n (l : list A) : NoDup l -> NoDup (firstn n l).
Proof.
  intro H. rewrite <- (firstn_skipn n l) in H. apply NoDup_app_remove_r in H. exact H.
Qed.

(** C3 (amended): the handler draws no random value and has no review
    buckets: for a known song (id inside the signed 64-bit range) with a
    non-empty catalog it recommends the candidate whose priority tuple is
    strictly smaller than that of every other candidate (the tuples differ,
    as the start indices do); so the selected entry is a candidate, and it
    is proficient only when every candidate is proficient. *)
Theorem selector_deterministic_no_review_C3 (d : db) (song_id : Z) (ms : list measure)
  (Hint : sqlite_int_ok song_id = true) (Hin : In song_id (songs d))
  (Hms : measures_of d song_id = Some ms) (Hne : ms <> []) :
  exists m,
    get_next_measure d song_id = Some (200, measure_response m) /\
    In m (eligible_measures ms) /\
    (forall c, In c (eligible_measures ms) -> c <> m ->
       tuple_lt (measure_priority m) (measure_priority c) = true) /\
    (m_category m = Proficient ->
       forall c, In c (eligible_measures ms) -> m_category c = Proficient).
Proof.
  destruct (eligible_measures ms) as [|x t] eqn:Ee.
  { exfalso. apply Hne, eligible_nil, Ee. }
  exists (min_from x t).
  assert (Hsel : py_min (eligible_measures ms) = Some (min_from x t)) by (rewrite Ee; reflexivity).
  destruct (py_min_spec _ _ Hsel) as [Hm Hmin]. rewrite Ee in Hm, Hmin.
  split.
  { unfold get_next_measure. rewrite Hint. simpl negb. cbv iota.
    apply song_known in Hin. rewrite Hin. simpl negb. cbv iota.
    rewrite Hms, Hsel. reflexivity. }
  split; [exact Hm|]. split.
  - intros c Hc Hcm.
    assert (Hnd : NoDup (map m_measure (x :: t))).
    { rewrite <- Ee. unfold eligible_measures. rewrite <- firstn_map.
      apply NoDup_firstn, (measures_of_NoDup d song_id ms Hms). }
    assert (Hdiff : m_measure c <> m_measure (min_from x t)).
    { intro E. apply Hcm. exact (NoDup_map_inj_in m_measure _ _ _ Hnd Hc Hm E). }
    specialize (Hmin c Hc). unfold measure_priority in *.
    apply tuple_nlt_iff in Hmin. apply tuple_lt_iff. lia.
  - intros Hp c Hc. specialize (Hmin c Hc).
    unfold measure_priority in Hmin. rewrite Hp in Hmin.
    destruct (m_category c) eqn:Ec; [| |reflexivity]; simpl in Hmin; discriminate.
Qed.

Lemma selector_deterministic_no_review_C3_witness :
  sqlite_int_ok 1 = true /\ In 1 (songs db_first_mastered) /\
  measures_of db_first_mastered 1 =
    Some [Measure 1 Proficient 3 1 (Some 100); Measure 2 Unlearned 0 0 None] /\
  exists m, get_next_measure db_first_mastered 1 = Some (200, measure_response m).
Proof.
  assert (H1 : In 1 (songs db_first_mastered)) by (left; reflexivity).
  assert (H2 : measures_of db_first_mastered 1 =
    Some [Measure 1 Proficient 3 1 (Some 100); Measure 2 Unlearned 0 0 None])
    by (vm_compute; reflexivity).
  split; [reflexivity|]. split; [exact H1|]. split; [exact H2|].
  destruct (selector_deterministic_no_review_C3 db_first_mastered 1 _ eq_refl H1 H2
              ltac:(discriminate)) as [m [Hm _]].
  exists m. exact Hm.
Defined.

(** ** C4: the priority order *)

(** C4 (counterexample): the code ranks a measure rated [hard] (best
    rating 1) together with a never-mastered one ([unlearned], rank 0), so
    measure 1 (best rating 1) is chosen over measure 2 (best rating 0, same
    practice count), although under the claimed ranks (needs_practice = 1 >
    unlearned = 0) measure 2 has the smaller priority tuple. *)
Lemma hard_ranked_as_unlearned_C4 :
  measures_of db_hard_snooze 1 =
    Some [Measure 1 Unlearned 1 1 (Some 100); Measure 2 Unlearned 0 1 (Some 101)] /\
  get_next_measure db_hard_snooze 1 =
    Some (200, measure_response (Measure 1 Unlearned 1 1 (Some 100))) /\
  tuple_lt (claimed_priority (Measure 2 Unlearned 0 1 (Some 101)))
           (claimed_priority (Measure 1 Unlearned 1 1 (Some 100))) = true.
Proof. split; [|split]; vm_compute; reflexivity. Qed.

(** C4 (amended): with no random branch at all, the selected entry is a
    candidate and is minimal under the tuple (category rank with
    unlearned = 0 < challenging = 1 < proficient = 2, practice count, start
    index): no candidate has a strictly smaller tuple. *)
Theorem selector_priority_minimum_C4 (l : list measure) (m : measure)
  (Hsel : py_min l = Some m) :
  In m l /\
  category_score Unlearned = 0 /\ category_score Challenging = 1 /\
  category_score Proficient = 2 /\
  forall c, In c l ->
    ~ (category_score (m_category c) < category_score (m_category m) \/
       category_score (m_category c) = category_score (m_category m) /\
       (m_practice_count c < m_practice_count m \/
        m_practice_count c = m_practice_count m /\ m_measure c < m_measure m)).
Proof.
  destruct (py_min_spec l m Hsel) as [Hin Hmin].
  split; [exact Hin|]. split; [reflexivity|]. split; [reflexivity|].
  split; [reflexivity|].
  intros c Hc. specialize (Hmin c Hc). unfold measure_priority in Hmin.
  apply tuple_nlt_iff in Hmin. exact Hmin.
Qed.

Lemma selector_priority_minimum_C4_witness :
  py_min [Measure 1 Unlearned 1 1 (Some 100); Measure 2 Unlearned 0 1 (Some 101)] =
    Some (Measure 1 Unlearned 1 1 (Some 100)) /\
  In (Measure 1 Unlearned 1 1 (Some 100))
     [Measure 1 Unlearned 1 1 (Some 100); Measure 2 Unlearned 0 1 (Some 101)].
Proof.
  assert (H : py_min [Measure 1 Unlearned 1 1 (Some 100); Measure 2 Unlearned 0 1 (Some 101)] =
                Some (Measure 1 Unlearned 1 1 (Some 100))) by reflexivity.
  split; [exact H|].
  exact (proj1 (selector_priority_minimum_C4 _ _ H)).
Defined.

(** ** C5: the category table *)

(** C5 (counterexample): best rating 1 gives [unlearned], not
    needs_practice/challenging (measure 1 of [db_hard_snooze], rated [hard]
    once), and best rating 2 gives [challenging], not decent. *)
Lemma category_three_levels_C5 :
  get_next_measure db_hard_snooze 1 =
    Some (200, JObj [("measure", JInt 1);
                     ("stats", JObj [("category", JStr "unlearned");
                                     ("best_rating", JInt 1);
                                     ("practice_count", JInt 1);
                                     ("last_practiced", JInt 100)])]) /\
  category_of 2 = Challenging.
Proof. split; vm_compute; reflexivity. Qed.

(** C5 (amended): every catalog entry gets its category from its best
    rating by the 3-level table: unlearned when best_rating < 2,
    challenging when best_rating = 2, proficient when best_rating >= 3. *)
Theorem category_table_C5 (d : db) (song_id : Z) (ms : list measure) (m : measure)
  (Hms : measures_of d song_id = Some ms) (Hin : In m ms) :
  (m_best_rating m < 2 <-> m_category m = Unlearned) /\
  (m_best_rating m = 2 <-> m_category m = Challenging) /\
  (3 <= m_best_rating m <-> m_category m = Proficient).
Proof.
  rewrite (measures_of_fields d song_id ms m Hms Hin).
  unfold category_of.
  destruct (Z.leb_spec 3 (m_best_rating m)); [|destruct (Z.leb_spec 2 (m_best_rating m))];
    repeat split; intros; try lia; try discriminate; reflexivity.
Qed.

Lemma category_table_C5_witness :
  measures_of db_hard_snooze 1 =
    Some [Measure 1 Unlearned 1 1 (Some 100); Measure 2 Unlearned 0 1 (Some 101)] /\
  (1 < 2 <-> Unlearned = Unlearned).
Proof.
  assert (H : measures_of db_hard_snooze 1 =
    Some [Measure 1 Unlearned 1 1 (Some 100); Measure 2 Unlearned 0 1 (Some 101)])
    by (vm_compute; reflexivity).
  split; [exact H|].
  exact (proj1 (category_table_C5 db_hard_snooze 1 _ (Measure 1 Unlearned 1 1 (Some 100))
                  H (or_introl eq_refl))).
Defined.

(** ** C6: scores and best rating *)

Lemma Forall2_In_right {A B} (R : A -> B -> Prop) l l' y :
  Forall2 R l l' -> In y l' -> exists x, In x l /\ R x y.
Proof.
  induction 1 as [|a b t t' Hab _ IH]; [intros []|].
  intros [<-|Hy]; [exists a; split; [left|]; auto|].
  destruct (IH Hy) as [x [Hx Hr]]. exists x. split; [right|]; auto.
Qed.

Lemma Forall2_In_left {A B} (R : A -> B -> Prop) l l' x :
  Forall2 R l l' -> In x l -> exists y, In y l' /\ R x y.
Proof.
  induction 1 as [|a b t t' Hab _ IH]; [intros []|].
  intros [<-|Hx]; [exists b; split; [left|]; auto|].
  destruct (IH Hx) as [y [Hy Hr]]. exists y. split; [right|]; auto.
Qed.

Lemma scores_invalid rs : forallb rating_check rs = false -> scores rs = None.
Proof.
  induction rs as [|r t IH]; simpl; [discriminate|].
  destruct (rating_check r) eqn:E; simpl; intro H.
  - destruct (rating_scores_Some r E) as [z ->]. rewrite (IH H). reflexivity.
  - apply rating_scores_None in E. rewrite E. reflexivity.
Qed.

(** C6: [rating_scores] is the table easy=3, medium=2, hard=1, snooze=0 and
    raises (here [None], the [KeyError]) exactly on the other symbols; a
    sequence holding such a symbol is rejected, and for a sequence of valid
    ratings the best rating is the largest score of its elements, or 0 for
    the empty sequence. *)
Theorem rating_scores_best_rating_C6 (rs : list string) :
  rating_scores "easy" = Some 3 /\ rating_scores "medium" = Some 2 /\
  rating_scores "hard" = Some 1 /\ rating_scores "snooze" = Some 0 /\
  (forall r, rating_scores r = None <-> rating_check r = false) /\
  (forallb rating_check rs = false -> best_rating_of rs = None) /\
  (forallb rating_check rs = true ->
     exists b, best_rating_of rs = Some b /\
       (rs = [] -> b = 0) /\
       (rs <> [] ->
          (exists r, In r rs /\ rating_scores r = Some b) /\
          forall r, In r rs -> exists s, rating_scores r = Some s /\ s <= b)).
Proof.
  do 4 (split; [reflexivity|]).
  split; [apply rating_scores_None|].
  split.
  { intro H. unfold best_rating_of. rewrite (scores_invalid rs H). reflexivity. }
  intro Hv. rewrite forallb_forall in Hv.
  destruct (scores_valid rs (proj2 (Forall_forall _ _) Hv)) as [xs Hxs].
  pose proof (scores_Forall2 _ _ Hxs) as HF.
  exists (py_max_default xs). unfold best_rating_of. rewrite Hxs.
  split; [reflexivity|]. split.
  - intros ->. inversion HF. reflexivity.
  - intro Hne. destruct xs as [|x t].
    + inversion HF; subst. congruence.
    + simpl. split.
      * destruct (Forall2_In_right _ _ _ _ HF (fold_max_In t x)) as [r [Hr Hs]].
        exists r. split; assumption.
      * intros r Hr. destruct (Forall2_In_left _ _ _ _ HF Hr) as [y [Hy Hs]].
        exists y. split; [exact Hs|apply fold_max_upper, Hy].
Qed.

(** ** C7: not found and the default recommendation *)




(** ** C8: the response payload *)

(** C8 (counterexample): for the group 2..4 with id 7, the payload carries
    the start index 2 under "measure", no "id" key, and its stats have no
    "is_group" key. *)
Lemma payload_has_no_id_or_is_group_C8 :
  get_next_measure db_one_group 1 =
    Some (200, measure_response (Measure 2 Unlearned 0 0 None)) /\
  json_get "id" (measure_response (Measure 2 Unlearned 0 0 None)) = None /\
  json_get "measure" (measure_response (Measure 2 Unlearned 0 0 None)) = Some (JInt 2) /\
  option_map json_keys (json_get "stats" (measure_response (Measure 2 Unlearned 0 0 None))) =
    Some ["category"; "best_rating"; "practice_count"; "last_practiced"].
Proof. repeat split; vm_compute; reflexivity. Qed.

(** C8 (amended): a successful recommendation is
    [{measure: start index, stats: {category, best_rating, practice_count,
    last_practiced}}] of a catalog entry; it has no group identifier and no
    is_group flag. *)
Theorem payload_shape_C8 (d : db) (song_id : Z) (body : json)
  (Hres : get_next_measure d song_id = Some (200, body))
  (Hnd : body <> snd default_response) :
  exists ms m,
    measures_of d song_id = Some ms /\ In m ms /\
    body = measure_response m /\
    json_keys body = ["measure"; "stats"] /\
    json_get "measure" body = Some (JInt (m_measure m)) /\
    option_map json_keys (json_get "stats" body) =
      Some ["category"; "best_rating"; "practice_count"; "last_practiced"].
Proof.
  revert Hres. unfold get_next_measure.
  destruct (sqlite_int_ok song_id); simpl; [|discriminate].
  destruct (existsb (Z.eqb song_id) (songs d)); simpl; [|discriminate].
  destruct (measures_of d song_id) as [ms|] eqn:Ems; [|discriminate].
  destruct (py_min (eligible_measures ms)) as [m|] eqn:Em; intro H.
  - injection H as <-. exists ms, m.
    split; [reflexivity|]. split.
    + apply py_min_spec in Em as [Hin _].
      unfold eligible_measures in Hin. apply (In_firstn _ _ _ Hin).
    + repeat split.
  - injection H as Hb. subst body. contradiction Hnd. reflexivity.
Qed.

Lemma payload_shape_C8_witness :
  get_next_measure db_one_group 1 =
    Some (200, measure_response (Measure 2 Unlearned 0 0 None)) /\
  json_keys (measure_response (Measure 2 Unlearned 0 0 None)) = ["measure"; "stats"].
Proof.
  assert (H : get_next_measure db_one_group 1 =
                Some (200, measure_response (Measure 2 Unlearned 0 0 None)))
    by (vm_compute; reflexivity).
  split; [exact H|].
  destruct (payload_shape_C8 db_one_group 1 _ H ltac:(discriminate))
    as [ms [m [_ [_ [_ [Hk _]]]]]].
  exact Hk.
Defined.

(** ** C9: the catalog *)

Lemma map_flat_map' {A B C} (f : B -> C) (g : A -> list B) (l : list A) :
  map f (flat_map g l) = flat_map (fun x => map f (g x)) l.
Proof.
  induction l as [|a t IH]; simpl; [reflexivity|]. rewrite map_app, IH. reflexivity.
Qed.

(** C9 (counterexample): a single measure 3..3 and a group 3..5 sharing
    its start are not distinct items: the query returns one row for start 3
    whose ratings and practice count merge both histories. *)
Lemma single_and_group_merged_C9 :
  measures_query db_overlap 1 = [Row 3 ["hard"; "easy"] 2 (Some 101)] /\
  measures_of db_overlap 1 = Some [Measure 3 Proficient 3 2 (Some 101)].
Proof. split; vm_compute; reflexivity. Qed.

(** C9 (amended): the catalog has one entry per distinct start index of
    the song's measure groups, in strictly increasing start order, and the
    entry for a start merges the rating histories of all groups with that
    start (single measure or multi-measure group); its practice count is
    the number of those ratings. *)
Theorem catalog_by_start_C9 (d : db) (song_id : Z) :
  Sorted Z.lt (map r_start_measure (measures_query d song_id)) /\
  (forall s, In s (map r_start_measure (measures_query d song_id)) <->
             exists g, In g (song_groups d song_id) /\ start_measure g = s) /\
  (forall r, In r (measures_query d song_id) ->
     r_ratings r =
       flat_map (fun g => map rating (joined_sessions d g))
                (filter (fun g => start_measure g =? r_start_measure r)
                        (song_groups d song_id)) /\
     r_practice_count r = Z.of_nat (List.length (r_ratings r))).
Proof.
  rewrite measures_query_starts.
  split; [apply group_keys_sorted|].
  split; [intro s; apply group_keys_In|].
  intros r Hr. unfold measures_query in Hr.
  apply in_map_iff in Hr as [s [<- _]].
  unfold aggregate, bucket_sessions. simpl.
  split; [apply map_flat_map'|rewrite length_map; reflexivity].
Qed.

(** ** C10: the window is capped at 8 *)

(** C10: the window is 5 or, when there are more than 5 entries and each
    of the first five has best rating at least 2, 8, in both cases capped
    at the number of entries; an entry at 0-based position 8 or later (the
    9th or later in start order) is never a candidate and never
    recommended. *)
Theorem window_five_or_eight_C10 (d : db) (song_id : Z) (ms : list measure)
  (Hms : measures_of d song_id = Some ms) :
  window_size ms =
    (if Nat.ltb 5 (List.length ms) && forallb is_measure_learned (firstn 5 ms)
     then Nat.min (List.length ms) 8 else Nat.min (List.length ms) 5) /\
  forall i m, nth_error ms i = Some m -> (8 <= i)%nat ->
    ~ In m (eligible_measures ms) /\
    forall c, get_next_measure d song_id <> Some (c, measure_response m).
Proof.
  split; [apply window_size_eq|].
  intros i m Hi H8.
  pose proof (measures_of_NoDup _ _ _ Hms) as Hnd.
  assert (Hout : ~ In m (eligible_measures ms)).
  { intro Hin. unfold eligible_measures in Hin.
    apply (firstn_nth_disjoint m_measure ms i (window_size ms) m m Hnd Hi); auto.
    pose proof (window_size_le_8 ms). lia. }
  split; [exact Hout|].
  intros c Hres. apply get_next_measure_response in Hres as [ms' [Hms' Hsel]].
  rewrite Hms in Hms'. injection Hms' as <-.
  apply py_min_spec in Hsel as [Hin _]. contradiction.
Qed.

Lemma window_five_or_eight_C10_witness :
  measures_of db_ten_mastered 1 = Some catalog_ten_mastered /\
  ~ In (Measure 9 Proficient 3 1 (Some 109)) (eligible_measures catalog_ten_mastered).
Proof.
  assert (H : measures_of db_ten_mastered 1 = Some catalog_ten_mastered)
    by (vm_compute; reflexivity).
  split; [exact H|].
  exact (proj1 (proj2 (window_five_or_eight_C10 db_ten_mastered 1 _ H) 8%nat
                  (Measure 9 Proficient 3 1 (Some 109)) eq_refl (le_n 8%nat))).
Defined.

(** * Further properties of the routes of app.py *)

(** ** Helpers *)

Lemma rating_error_ids_error : rating_error <> ids_error.
Proof. unfold rating_error, ids_error. intro H. injection H. discriminate. Qed.

Lemma log_practice_cases lookup d data new_id now :
  (exists r, rating_field data = Some (JStr r) /\ rating_check r = true /\
     let '(s, g) := resolve_ids lookup d data in
     if negb (opt_truthy s) || negb (opt_truthy g) then
       log_practice lookup d data new_id now = (d, ids_error)
     else
       log_practice lookup d data new_id now =
         (DB (songs d) (measure_groups d)
             (practice_sessions d ++
                [PracticeSession new_id (int_or_0 s) (int_or_0 g) now r]),
          (201, JObj [("id", JInt new_id)]))) \/
  ((forall r, rating_field data = Some (JStr r) -> rating_check r = false) /\
   log_practice lookup d data new_id now = (d, rating_error)).
Proof.
  unfold log_practice.
  destruct (rating_field data) as [[| z | r | kvs]|] eqn:Ef;
    try (right; split; [intros r' H; discriminate|reflexivity]).
  destruct (rating_check r) eqn:Ec; simpl.
  - left. exists r. repeat split; auto.
    destruct (resolve_ids lookup d data) as [s g].
    destruct (negb (opt_truthy s) || negb (opt_truthy g)); reflexivity.
  - right. split; [intros r' H; injection H as <-; exact Ec|reflexivity].
Qed.

(** ** Extra properties *)

(** X3 ([log_practice]): the rating is [data["rating"]] when truthy, else
    [data["difficulty"]]; the request answers 400 with the rating error and
    leaves the database unchanged exactly when that value is not one of the
    strings easy, medium, hard, snooze. *)
Theorem log_practice_rating_rejected lookup d data new_id now :
  log_practice lookup d data new_id now = (d, rating_error) <->
  ~ (exists r, rating_field data = Some (JStr r) /\ rating_check r = true).
Proof.
  destruct (log_practice_cases lookup d data new_id now)
    as [[r [Hf [Hc Hcase]]]|[Hinv Hres]].
  - split; [|intro Hn; exfalso; apply Hn; eauto].
    destruct (resolve_ids lookup d data) as [s g].
    destruct (negb (opt_truthy s) || negb (opt_truthy g)); rewrite Hcase; intro H.
    + apply (f_equal snd) in H. simpl in H.
      exfalso. exact (rating_error_ids_error (eq_sym H)).
    + apply (f_equal (fun x => fst (snd x))) in H. discriminate.
  - split; [intros _|intros _; exact Hres].
    intros [r [Hf Hc]]. rewrite (Hinv r Hf) in Hc. discriminate.
Qed.

Lemma min_from_keep cur l :
  (forall y, In y l -> tuple_lt (measure_priority y) (measure_priority cur) = false) ->
  min_from cur l = cur.
Proof.
  induction l as [|y t IH]; intro H; cbn [min_from]; [reflexivity|].
  rewrite (H y (or_introl eq_refl)). apply IH. intros z Hz. apply H. right. exact Hz.
Qed.

Lemma cleared_measures d song_id :
  measures_of (fst (clear_practice_sessions d)) song_id =
  Some (map (fun s => Measure s Unlearned 0 0 None) (group_keys (song_groups d song_id))).
Proof.
  unfold measures_of, measures_query. simpl.
  change (song_groups (DB (songs d) (measure_groups d) []) song_id) with (song_groups d song_id).
  induction (group_keys (song_groups d song_id)) as [|s t IH]; [reflexivity|].
  simpl map. cbn [process_rows].
  assert (Hb : forall gs, bucket_sessions (DB (songs d) (measure_groups d) []) gs s = []).
  { intro gs. unfold bucket_sessions.
    induction (filter (fun g => start_measure g =? s) gs) as [|g l IHl]; [reflexivity|].
    simpl. exact IHl. }
  unfold aggregate at 1. rewrite Hb. simpl. rewrite IH. reflexivity.
Qed.

(** X7 ([clear_practice_sessions], then GET next-measure): once the history
    is cleared, a known song (its id inside the signed 64-bit range, as the
    ids SQLite assigns are) answers its smallest start measure with the
    stats of a never practised measure (unlearned, best rating 0, count 0,
    no last date), or [{"measure": 1}] when it has no groups. *)
Theorem clear_then_next_measure d song_id :
  sqlite_int_ok song_id = true -> In song_id (songs d) ->
  get_next_measure (fst (clear_practice_sessions d)) song_id =
  Some (match group_keys (song_groups d song_id) with
        | [] => default_response
        | s :: _ => (200, measure_response (Measure s Unlearned 0 0 None))
        end).
Proof.
  intros Hint Hin. unfold get_next_measure. rewrite Hint. simpl negb. cbv iota.
  apply song_known in Hin. simpl songs. rewrite Hin. simpl negb. cbv iota.
  rewrite cleared_measures.
  pose proof (group_keys_sorted (song_groups d song_id)) as Hs.
  destruct (group_keys (song_groups d song_id)) as [|k t]; [reflexivity|].
  set (f := fun s => Measure s Unlearned 0 0 None).
  assert (Hw := window_size_pos (map f (k :: t)) ltac:(discriminate)).
  unfold eligible_measures.
  destruct (window_size (map f (k :: t))) as [|w]; [lia|].
  simpl map. simpl firstn. simpl py_min. rewrite min_from_keep; [reflexivity|].
  intros y Hy. apply In_firstn in Hy. apply in_map_iff in Hy as [s [<- Hst]].
  apply Sorted_StronglySorted in Hs; [|intros a b c; lia].
  inversion Hs as [|a l _ Hf]; subst. rewrite Forall_forall in Hf.
  specialize (Hf s Hst). unfold f, measure_priority, tuple_lt. simpl.
  apply Z.ltb_ge. lia.
Qed.

Lemma clear_then_next_measure_witness :
  sqlite_int_ok 1 = true /\ In 1 (songs db_overlap) /\
  get_next_measure (fst (clear_practice_sessions db_overlap)) 1 =
  Some (match group_keys (song_groups db_overlap 1) with
        | [] => default_response
        | s :: _ => (200, measure_response (Measure s Unlearned 0 0 None))
        end).
Proof.
  assert (H : In 1 (songs db_overlap)) by (simpl; auto).
  split; [reflexivity|].
  split; [exact H|exact (clear_then_next_measure db_overlap 1 eq_refl H)].
Defined.

Lemma insert_by_count_length r l : List.length (insert_by_count r l) = S (List.length l).
Proof.
  induction l as [|x t IH]; simpl; [reflexivity|].
  destruct (snd x <=? snd r); simpl; [rewrite IH|]; reflexivity.
Qed.

Lemma sort_by_count_length l :
  List.length (fold_right insert_by_count [] l) = List.length l.
Proof.
  induction l as [|x t IH]; simpl; [reflexivity|].
  rewrite insert_by_count_length, IH. reflexivity.
Qed.

Lemma sql_limit_nil {A} limit (l : list A) :
  sql_limit limit l = [] <-> l = [] \/ limit = 0.
Proof.
  unfold sql_limit. destruct (Z.ltb_spec limit 0) as [Hn|Hn].
  - split; [auto|]. intros [H|H]; [exact H|lia].
  - destruct l as [|x t]; [simpl; rewrite firstn_nil; tauto|].
    destruct (Z.to_nat limit) as [|n] eqn:E; simpl.
    + split; [intros _; right; lia|reflexivity].
    + split; [discriminate|]. intros [H|H]; [discriminate|subst; discriminate].
Qed.

Lemma filenames_of_cases rows :
  filenames_of rows = (match rows with [] => Some [] | _ => None end).
Proof. destruct rows; reflexivity. Qed.

(** X8 ([next_to_practice], GET /api/next): whatever Python's [int] and
    SQLite's comparison compute, the route answers the empty list exactly
    when [limit] (the argument, or 10 when absent) converts to an integer
    inside the signed 64-bit range and the query has no row, that is when
    that integer is 0 or no stored group belongs to an existing song and
    passes the [song_id] filter; in every other case it raises (ValueError
    or OverflowError on the limit, or the [song_row.get] call on a
    [sqlite3.Row]), so it never answers a non-empty list. *)
Theorem next_to_practice_rows py_int song_matches d limit_arg song_arg :
  let limit := match limit_arg with Some s => py_int s | None => Some 10 end in
  (next_to_practice py_int song_matches d limit_arg song_arg = Some [] <->
   exists n, limit = Some n /\ sqlite_int_ok n = true /\
     (n = 0 \/
      ~ exists g, In g (measure_groups d) /\ In (mg_song_id g) (songs d) /\
          song_filter song_matches song_arg g = true)) /\
  (next_to_practice py_int song_matches d limit_arg song_arg <> Some [] ->
   next_to_practice py_int song_matches d limit_arg song_arg = None).
Proof.
  cbv zeta. unfold next_to_practice.
  assert (Hr : forall n, next_rows song_matches d song_arg n = [] <->
               n = 0 \/
               ~ exists g, In g (measure_groups d) /\ In (mg_song_id g) (songs d) /\
                   song_filter song_matches song_arg g = true).
  { intro n. unfold next_rows. rewrite sql_limit_nil.
    set (gs := filter (song_filter song_matches song_arg)
                 (filter (fun g => existsb (Z.eqb (mg_song_id g)) (songs d)) (measure_groups d))).
    assert (Hl : fold_right insert_by_count [] (map (fun g => (g, group_practice_count d g)) (rev gs))
                 = [] <-> gs = []).
    { rewrite <- length_zero_iff_nil, sort_by_count_length, length_map, length_rev.
      apply length_zero_iff_nil. }
    assert (Hin : forall g, In g gs <->
              In g (measure_groups d) /\ In (mg_song_id g) (songs d) /\
              song_filter song_matches song_arg g = true).
    { intro g. unfold gs. rewrite !filter_In, song_known. tauto. }
    rewrite Hl. split.
    - intros [H|H]; [right|left; exact H].
      intros [g Hg]. apply Hin in Hg. rewrite H in Hg. destruct Hg.
    - intros [H|H]; [right; exact H|left].
      destruct gs as [|g t] eqn:E; [reflexivity|].
      exfalso. apply H. exists g. apply Hin. left. reflexivity. }
  destruct (match limit_arg with Some s => py_int s | None => Some 10 end) as [n|].
  2:{ split; [split; [discriminate|intros [n [H _]]; discriminate]|reflexivity]. }
  destruct (sqlite_int_ok n) eqn:Eb; simpl negb; cbv iota.
  2:{ split; [split; [discriminate|intros [n' [H [H' _]]]; injection H as <-; congruence]|reflexivity]. }
  rewrite filenames_of_cases.
  destruct (next_rows song_matches d song_arg n) as [|x t] eqn:En; split.
  - split; [intros _; exists n; split; [reflexivity|split; [exact Eb|apply Hr, En]]|reflexivity].
  - intro H. exfalso. apply H. reflexivity.
  - split; [discriminate|]. intros [n' [H [_ H']]]. injection H as <-.
    apply Hr in H'. congruence.
  - reflexivity.
Qed.

(** * Properties of generate_measures.py *)

Module GenerateMeasuresFacts.
Import GenerateMeasures.
Local Open Scope list_scope.

(** ** [proficiency] *)

Lemma last_n_ratings_nil g n :
  (List.length (all_ratings g) < n)%nat -> last_n_ratings g n = [].
Proof.
  intro H. unfold last_n_ratings. destruct (Nat.leb_spec n (List.length (all_ratings g)));
    [lia|reflexivity].
Qed.

Lemma last_n_ratings_length g n :
  (n <= List.length (all_ratings g))%nat -> List.length (last_n_ratings g n) = n.
Proof.
  intro H. unfold last_n_ratings. destruct (Nat.leb_spec n (List.length (all_ratings g)));
    [|lia]. rewrite length_skipn. lia.
Qed.

(** X9 ([MeasureGroup.proficiency]): a group is UNLEARNED exactly when it
    has no rating; any "hard" rating makes it NEEDS_PRACTICE; one or two
    ratings without "hard" make it PROFICIENT (the last-3 and last-2 windows
    are then empty); and DECENT needs at least three ratings. *)
Theorem proficiency_edges g :
  (proficiency g = UNLEARNED <-> all_ratings g = []) /\
  (In "hard" (all_ratings g) -> proficiency g = NEEDS_PRACTICE) /\
  (all_ratings g <> [] -> (List.length (all_ratings g) < 3)%nat ->
   ~ In "hard" (all_ratings g) -> proficiency g = PROFICIENT) /\
  (proficiency g = DECENT -> (3 <= List.length (all_ratings g))%nat).
Proof.
  assert (Hhard : existsb (fun r => String.eqb r "hard") (all_ratings g) = true <->
                  In "hard" (all_ratings g)).
  { rewrite existsb_exists. split.
    - intros [x [Hx E]]. apply String.eqb_eq in E. subst. exact Hx.
    - intro H. exists "hard". split; [exact H|apply String.eqb_refl]. }
  assert (Hne : all_ratings g <> [] ->
    proficiency g =
      if existsb (fun r => String.eqb r "hard") (all_ratings g) then NEEDS_PRACTICE
      else if forallb (fun r => String.eqb r "easy") (last_n_ratings g 3) then PROFICIENT
      else if forallb (fun r => String.eqb r "easy" || String.eqb r "medium")
                      (last_n_ratings g 2) then DECENT
      else NEEDS_PRACTICE).
  { unfold proficiency. destruct (all_ratings g); [congruence|reflexivity]. }
  assert (Hcase : all_ratings g = [] \/ all_ratings g <> [])
    by (destruct (all_ratings g); [left|right]; congruence).
  destruct Hcase as [Er|Hc].
  { unfold proficiency. rewrite Er.
    repeat split; try reflexivity; intros; try contradiction; try discriminate. }
  specialize (Hne Hc). rewrite Hne.
  repeat split.
  - destruct (existsb _ _); [discriminate|].
    destruct (forallb _ _); [discriminate|]. destruct (forallb _ _); discriminate.
  - intro H. exfalso. exact (Hc H).
  - intro H. apply Hhard in H. rewrite H. reflexivity.
  - intros _ Hlt Hn. destruct (existsb _ (all_ratings g)) eqn:E.
    + exfalso. apply Hn, Hhard. reflexivity.
    + rewrite (last_n_ratings_nil g 3 Hlt). reflexivity.
  - destruct (existsb _ _); [discriminate|].
    destruct (Nat.ltb_spec (List.length (all_ratings g)) 3) as [Hlt|Hge]; [|intros _; exact Hge].
    rewrite (last_n_ratings_nil g 3 Hlt). simpl. discriminate.
Qed.

(** ** The ranges of [process_song] *)

Lemma py_range_In a b x : In x (py_range a b) <-> a <= x < b.
Proof.
  unfold py_range. rewrite in_map_iff. split.
  - intros [k [<- Hk]]. apply in_seq in Hk. lia.
  - intro H. exists (Z.to_nat (x - a)). split; [lia|]. apply in_seq. lia.
Qed.

Lemma py_range_length a b : List.length (py_range a b) = Z.to_nat (b - a).
Proof. unfold py_range. rewrite length_map, length_seq. reflexivity. Qed.

Lemma py_range_NoDup a b : NoDup (py_range a b).
Proof.
  unfold py_range. apply NoDup_map_inv with (f := fun x => Z.to_nat (x - a)).
  rewrite map_map. erewrite map_ext_in; [rewrite map_id; apply seq_NoDup|].
  intros k _. simpl. lia.
Qed.

(** X10 ([process_song]): for [total] measures the script visits the
    measures [1..total] once each, and the ranges [(start, end)] it builds
    are exactly the windows of 2 or 3 consecutive measures inside
    [1..total], each once: [total - 1] pairs and [total - 2] triples (none
    when there are too few measures). *)
Theorem process_song_ranges total :
  (forall n, In n (single_measures total) <-> 1 <= n <= total) /\
  NoDup (single_measures total) /\
  (forall a b, In (a, b) (combination_ranges total) <->
     1 <= a /\ b <= total /\ (b = a + 1 \/ b = a + 2)) /\
  NoDup (combination_ranges total) /\
  List.length (combination_ranges total) = (Z.to_nat (total - 1) + Z.to_nat (total - 2))%nat.
Proof.
  split; [intro n; unfold single_measures; rewrite py_range_In; lia|].
  split; [apply py_range_NoDup|].
  unfold combination_ranges. simpl flat_map. rewrite app_nil_r.
  split; [|split].
  - intros a b. rewrite in_app_iff, !in_map_iff. split.
    + intros [[s [E Hs]]|[s [E Hs]]]; injection E as <- <-; apply py_range_In in Hs; lia.
    + intros [H1 [H2 [H3|H3]]]; [left|right]; exists a; (split; [f_equal; lia|]);
        apply py_range_In; lia.
  - apply NoDup_app.
    + apply (NoDup_map_inv fst). rewrite map_map. simpl. rewrite map_id. apply py_range_NoDup.
    + apply (NoDup_map_inv fst). rewrite map_map. simpl. rewrite map_id. apply py_range_NoDup.
    + intros [a b] H1 H2. apply in_map_iff in H1 as [s [E1 _]].
      apply in_map_iff in H2 as [s' [E2 _]].
      injection E1 as <- <-. injection E2. lia.
  - rewrite length_app, !length_map, !py_range_length. f_equal; f_equal; lia.
Qed.

(** ** [normalize_name] *)

Lemma no_double_dash_iff s :
  no_double_dash s = true <-> ~ exists a b, s = a ++ dash :: dash :: b.
Proof.
  induction s as [|c t IH]; simpl.
  - split; [|reflexivity]. intros _ [a [b E]]. destruct a; discriminate.
  - rewrite andb_true_iff, negb_true_iff, IH. split.
    + intros [Hc Ht] [a [b E]]. destruct a as [|x a]; simpl in E; injection E as -> E.
      * subst t. simpl in Hc. discriminate.
      * apply Ht. exists a, b. exact E.
    + intro H. split.
      * destruct (c =? dash) eqn:Ec; [|reflexivity]. apply Z.eqb_eq in Ec. subst c.
        destruct t as [|y t]; [reflexivity|]. simpl.
        destruct (y =? dash) eqn:Ey; [|reflexivity]. apply Z.eqb_eq in Ey. subst y.
        exfalso. apply H. exists [], t. reflexivity.
      * intros [a [b E]]. apply H. exists (c :: a), b. rewrite E. reflexivity.
Qed.

Lemma no_double_dash_app_r a s : no_double_dash (a ++ s) = true -> no_double_dash s = true.
Proof.
  rewrite !no_double_dash_iff. intros H [x [y E]]. apply H.
  exists (a ++ x), y. rewrite E, <- app_assoc. reflexivity.
Qed.

Lemma no_double_dash_rev s : no_double_dash (rev s) = no_double_dash s.
Proof.
  assert (Hd : forall s, no_double_dash s = true -> no_double_dash (rev s) = true).
  { intros u. rewrite !no_double_dash_iff. intros H [a [b E]]. apply H.
    exists (rev b), (rev a). rewrite <- (rev_involutive u), E.
    rewrite rev_app_distr. simpl. rewrite <- !app_assoc. reflexivity. }
  destruct (no_double_dash s) eqn:E; [apply Hd, E|].
  destruct (no_double_dash (rev s)) eqn:E'; [|reflexivity].
  apply Hd in E'. rewrite rev_involutive, E in E'. discriminate.
Qed.

Lemma lstrip_dash_suffix s : exists a, s = a ++ lstrip_dash s.
Proof.
  induction s as [|c t IH]; simpl; [exists []; reflexivity|].
  destruct (c =? dash); [|exists []; reflexivity].
  destruct IH as [a E]. exists (c :: a). simpl. congruence.
Qed.

Lemma lstrip_dash_head s : starts_with_dash (lstrip_dash s) = false.
Proof.
  induction s as [|c t IH]; simpl; [reflexivity|].
  destruct (c =? dash) eqn:E; [exact IH|simpl; exact E].
Qed.

Lemma lstrip_dash_id s : starts_with_dash s = false -> lstrip_dash s = s.
Proof. destruct s as [|c t]; simpl; [reflexivity|]. intro E. rewrite E. reflexivity. Qed.

Lemma sub_runs_shape s b :
  forallb (fun c => is_alnum c || (c =? dash)) (sub_runs b s) = true /\
  no_double_dash (sub_runs b s) = true /\
  (b = true -> starts_with_dash (sub_runs b s) = false).
Proof.
  revert b. induction s as [|c t IH]; intro b; simpl; [repeat split|].
  destruct (is_alnum c) eqn:Ea.
  - destruct (IH false) as [H1 [H2 _]]. simpl. rewrite Ea, H1, H2. simpl.
    assert (Hc : (c =? dash) = false).
    { apply Z.eqb_neq. intro E. subst c. discriminate. }
    rewrite Hc. repeat split.
  - destruct b.
    + exact (IH true).
    + destruct (IH true) as [H1 [H2 H3]]. specialize (H3 eq_refl).
      split; [|split; [|discriminate]].
      * cbn [forallb]. rewrite H1. reflexivity.
      * cbn [no_double_dash]. rewrite H2.
        destruct (sub_runs true t) as [|y u]; [reflexivity|].
        simpl in H3 |- *. rewrite H3. reflexivity.
Qed.

Lemma lower_dash c :
  ((if (65 <=? c) && (c <=? 90) then c + 32 else c) =? dash) = (c =? dash).
Proof.
  unfold dash. destruct ((65 <=? c) && (c <=? 90)) eqn:E; [|reflexivity].
  apply andb_true_iff in E as [E1 E2]. apply Z.leb_le in E1, E2.
  destruct (Z.eqb_spec (c + 32) 45); destruct (Z.eqb_spec c 45); try reflexivity; lia.
Qed.

Lemma lower_shape s :
  forallb (fun c => is_alnum c || (c =? dash)) s = true ->
  forallb name_char (lower s) = true /\
  no_double_dash (lower s) = no_double_dash s /\
  starts_with_dash (lower s) = starts_with_dash s.
Proof.
  induction s as [|c t IH]; simpl; [repeat split|].
  intro H. apply andb_true_iff in H as [Hc Ht]. destruct (IH Ht) as [I1 [I2 I3]].
  rewrite I1, I2, lower_dash. repeat split.
  - rewrite andb_true_r. unfold name_char, is_alnum, dash in *.
    repeat rewrite orb_true_iff in *. repeat rewrite andb_true_iff in *.
    repeat rewrite Z.leb_le in *. rewrite Z.eqb_eq in *.
    destruct (Z.leb_spec 65 c); destruct (Z.leb_spec c 90); simpl; lia.
  - f_equal. f_equal. destruct t as [|y u]; [reflexivity|]. simpl. rewrite lower_dash.
    reflexivity.
Qed.

Lemma starts_with_dash_app w r :
  starts_with_dash w = true -> starts_with_dash (w ++ r) = true.
Proof. destruct w; simpl; [discriminate|auto]. Qed.

Lemma forallb_rev {A} (f : A -> bool) l : forallb f (rev l) = forallb f l.
Proof.
  induction l as [|x t IH]; simpl; [reflexivity|].
  rewrite forallb_app, IH. simpl. rewrite andb_true_r. apply andb_comm.
Qed.

Lemma forallb_app_r {A} (f : A -> bool) a l : forallb f (a ++ l) = true -> forallb f l = true.
Proof. rewrite forallb_app. intro H. apply andb_true_iff in H as [_ H]. exact H. Qed.

Lemma strip_dash_shape s :
  forallb name_char s = true -> no_double_dash s = true -> clean_name (strip_dash s) = true.
Proof.
  intros Hc Hn. unfold strip_dash, clean_name.
  destruct (lstrip_dash_suffix s) as [a Ea].
  pose proof (lstrip_dash_head s) as Hu0.
  set (u := lstrip_dash s) in *.
  destruct (lstrip_dash_suffix (rev u)) as [b Eb].
  pose proof (lstrip_dash_head (rev u)) as Hv0.
  set (v := lstrip_dash (rev u)) in *.
  assert (Hcu : forallb name_char u = true) by (rewrite Ea in Hc; exact (forallb_app_r _ _ _ Hc)).
  assert (Hnu : no_double_dash u = true) by (rewrite Ea in Hn; exact (no_double_dash_app_r _ _ Hn)).
  assert (Hcv : forallb name_char v = true).
  { rewrite <- (forallb_rev _ u), Eb in Hcu. exact (forallb_app_r _ _ _ Hcu). }
  assert (Hnv : no_double_dash v = true).
  { rewrite <- (no_double_dash_rev u), Eb in Hnu. exact (no_double_dash_app_r _ _ Hnu). }
  rewrite rev_involutive, Hv0, no_double_dash_rev, Hnv, forallb_rev, Hcv.
  assert (Hw : starts_with_dash (rev v) = false).
  { destruct (starts_with_dash (rev v)) eqn:E; [|reflexivity].
    assert (Eu : u = rev v ++ rev b)
      by (rewrite <- (rev_involutive u), Eb, rev_app_distr; reflexivity).
    rewrite <- Hu0, Eu. symmetry. apply starts_with_dash_app, E. }
  rewrite Hw. reflexivity.
Qed.

(** X11 ([normalize_name]): the folder name built from any file name
    contains only lower-case ASCII letters, digits and dashes, does not
    start or end with a dash, and never has two dashes in a row. *)
Theorem normalize_name_clean filename : clean_name (normalize_name filename) = true.
Proof.
  unfold normalize_name. destruct (sub_runs_shape (stem filename) false) as [H1 [H2 _]].
  destruct (lower_shape _ H1) as [L1 [L2 _]].
  apply strip_dash_shape; [exact L1|rewrite L2; exact H2].
Qed.

Lemma rfind_from_absent c i s acc : ~ In c s -> rfind_from c i s acc = acc.
Proof.
  revert i acc. induction s as [|x t IH]; intros i acc Hn; simpl; [reflexivity|].
  destruct (Z.eqb_spec x c) as [->|_]; [exfalso; apply Hn; left; reflexivity|].
  apply IH. intro H. apply Hn. right. exact H.
Qed.

Lemma name_char_not_dot s : forallb name_char s = true -> ~ In dot s.
Proof.
  intros H Hin. rewrite forallb_forall in H. specialize (H dot Hin).
  unfold name_char, dot, dash in H. simpl in H. discriminate.
Qed.

Lemma clean_stem s : forallb name_char s = true -> stem s = s.
Proof.
  intro H. unfold stem, rfind. rewrite rfind_from_absent by (apply name_char_not_dot, H).
  reflexivity.
Qed.

Lemma clean_sub_runs s b :
  forallb name_char s = true -> no_double_dash s = true ->
  (b = true -> starts_with_dash s = false) -> sub_runs b s = s.
Proof.
  revert b. induction s as [|c t IH]; intros b Hc Hn Hb; simpl; [reflexivity|].
  simpl in Hc, Hn. apply andb_true_iff in Hc as [Hc Ht]. apply andb_true_iff in Hn as [Hcd Hnt].
  destruct (is_alnum c) eqn:Ea.
  - f_equal. apply IH; auto; discriminate.
  - assert (Hd : c = dash).
    { unfold name_char, is_alnum in *.
      repeat rewrite orb_true_iff in Hc. repeat rewrite orb_false_iff in Ea.
      destruct Hc as [[Hc|Hc]|Hc]; [rewrite Hc in Ea; destruct Ea as [[_ E]]; discriminate
                                  |rewrite Hc in Ea; destruct Ea as [[E _]]; discriminate
                                  |apply Z.eqb_eq, Hc]. }
    subst c. destruct b.
    + specialize (Hb eq_refl). discriminate.
    + f_equal. apply IH; auto. intros _.
      destruct t as [|y u]; [reflexivity|]. simpl in *.
      destruct (y =? dash); [discriminate|reflexivity].
Qed.

Lemma clean_lower s : forallb name_char s = true -> lower s = s.
Proof.
  induction s as [|c t IH]; simpl; [reflexivity|].
  intro H. apply andb_true_iff in H as [Hc Ht]. rewrite (IH Ht). f_equal.
  destruct ((65 <=? c) && (c <=? 90)) eqn:E; [|reflexivity].
  exfalso. unfold name_char, dash in Hc.
  apply andb_true_iff in E as [E1 E2]. apply Z.leb_le in E1, E2.
  repeat rewrite orb_true_iff in Hc. repeat rewrite andb_true_iff in Hc.
  repeat rewrite Z.leb_le in Hc. rewrite Z.eqb_eq in Hc. lia.
Qed.

(** X12 ([normalize_name]): normalizing is idempotent: a normalized name
    is its own normalization, so re-running the script on its own output
    folders names them the same. *)
Theorem normalize_name_idempotent filename :
  normalize_name (normalize_name filename) = normalize_name filename.
Proof.
  pose proof (normalize_name_clean filename) as H.
  set (s := normalize_name filename) in *. clearbody s.
  unfold clean_name in H. apply andb_true_iff in H as [H H4].
  apply andb_true_iff in H as [H H3]. apply andb_true_iff in H as [H1 H2].
  apply negb_true_iff in H3, H4.
  unfold normalize_name. rewrite (clean_stem s H1).
  rewrite (clean_sub_runs s false H1 H2) by discriminate.
  rewrite (clean_lower s H1). unfold strip_dash.
  rewrite (lstrip_dash_id s H3), (lstrip_dash_id (rev s) H4), rev_involutive. reflexivity.
Qed.

(** ** [categorize_measures] *)

Lemma set_add_In x y s : In x (set_add y s) <-> In x s \/ x = y.
Proof.
  unfold set_add. destruct (existsb (Z.eqb y) s) eqn:E.
  - split; [auto|]. intros [H| ->]; [exact H|].
    apply existsb_exists in E as [z [Hz Ez]]. apply Z.eqb_eq in Ez. subst. exact Hz.
  - rewrite in_app_iff. simpl. split; intros [H|H]; auto; destruct H; auto; contradiction.
Qed.

Lemma set_add_nonempty y s : set_add y s <> [].
Proof.
  unfold set_add. destruct (existsb (Z.eqb y) s) eqn:E.
  - destruct s; [discriminate|congruence].
  - destruct s; discriminate.
Qed.

Lemma bucket_add_to b l l' i :
  bucket (add_to b l i) l' =
  if level_eqb l l' then set_add i (bucket b l') else bucket b l'.
Proof. destruct l, l'; reflexivity. Qed.

Lemma add_to_grows b l i l' : bucket b l' <> [] -> bucket (add_to b l i) l' <> [].
Proof.
  rewrite bucket_add_to. destruct (level_eqb l l'); [intros _; apply set_add_nonempty|auto].
Qed.

Lemma add_to_nonempty b l i : bucket (add_to b l i) l <> [].
Proof. rewrite bucket_add_to. destruct l; apply set_add_nonempty. Qed.

Lemma add_to_inv groups b l i g :
  buckets_inv groups b -> In (i, g) groups -> 1 <= size g ->
  (l = UNLEARNED -> b_needs_practice b <> []) ->
  buckets_inv groups (add_to b l i).
Proof.
  intros [Hu Hin] Hg Hs Hl. split.
  - intro Hne. destruct l; simpl in *; auto; try apply set_add_nonempty.
  - intros l' x Hx. rewrite bucket_add_to in Hx.
    destruct (level_eqb l l'); [|apply (Hin l' x Hx)].
    apply set_add_In in Hx as [Hx| ->]; [apply (Hin l' x Hx)|eauto].
Qed.

Lemma categorize_multi_stuck groups l e :
  (forall b, e <> Ret b) -> fold_left (categorize_multi groups) l e = e.
Proof.
  revert e. induction l as [|x t IH]; intros e H; simpl; [reflexivity|].
  destruct e as [b| | | | |]; [exfalso; apply (H b); reflexivity| | | | |];
    apply IH; intros b' E; discriminate.
Qed.

Lemma multi_fold_spec groups l b :
  (forall e, In e l -> In e groups /\ 1 < size (snd e)) ->
  buckets_inv groups b ->
  (fold_left (categorize_multi groups) l (Ret b) = TypeError /\
   exists e, In e l /\ component_measures groups (snd e) <> []) \/
  (exists b', fold_left (categorize_multi groups) l (Ret b) = Ret b' /\
     buckets_inv groups b' /\
     (forall e, In e l -> component_measures groups (snd e) = []) /\
     (forall lv, bucket b lv <> [] -> bucket b' lv <> []) /\
     (l <> [] -> exists lv, bucket b' lv <> [])).
Proof.
  revert b. induction l as [|[i g] t IH]; intros b Hl Hinv; cbn [fold_left].
  { right. exists b. split; [reflexivity|]. split; [exact Hinv|].
    split; [intros e []|]. split; [auto|]. intro H. exfalso. apply H. reflexivity. }
  assert (Hig : In (i, g) groups /\ 1 < size g) by exact (Hl (i, g) (or_introl eq_refl)).
  assert (Ht : forall e, In e t -> In e groups /\ 1 < size (snd e)) by (intros e He; apply Hl; right; exact He).
  destruct (component_measures groups g) as [|c cs] eqn:Ec.
  - set (lv := if level_eqb (proficiency g) UNLEARNED then NEEDS_PRACTICE else proficiency g).
    assert (Hstep : categorize_multi groups (Ret b) (i, g) = Ret (add_to b lv i))
      by (unfold categorize_multi; rewrite Ec; unfold lv; destruct (level_eqb _ _); reflexivity).
    rewrite Hstep.
    assert (Hinv' : buckets_inv groups (add_to b lv i)).
    { apply (add_to_inv groups b lv i g Hinv (proj1 Hig)); [lia|].
      unfold lv. destruct (proficiency g) eqn:Ep; simpl; discriminate. }
    destruct (IH (add_to b lv i) Ht Hinv') as [[He [e [Hin Hc]]]|[b' [Hf [Hi' [Hc [Hg' _]]]]]].
    + left. split; [exact He|]. exists e. split; [right; exact Hin|exact Hc].
    + right. exists b'. split; [exact Hf|]. split; [exact Hi'|]. split; [|split].
      * intros e [<-|He]; [exact Ec|apply Hc, He].
      * intros l' Hne. apply Hg', add_to_grows, Hne.
      * intros _. exists lv. apply Hg', add_to_nonempty.
  - assert (Hstep : categorize_multi groups (Ret b) (i, g) = TypeError)
      by (unfold categorize_multi; rewrite Ec; reflexivity).
    left. rewrite Hstep, categorize_multi_stuck by (intros b' E; discriminate).
    split; [reflexivity|]. exists (i, g). split; [left; reflexivity|simpl; rewrite Ec; discriminate].
Qed.

Lemma single_fold_spec groups l b :
  (forall e, In e l -> In e groups /\ size (snd e) = 1) ->
  buckets_inv groups b ->
  buckets_inv groups (fold_left categorize_single l b) /\
  (forall lv, bucket b lv <> [] -> bucket (fold_left categorize_single l b) lv <> []) /\
  (l <> [] -> exists lv, bucket (fold_left categorize_single l b) lv <> []).
Proof.
  revert b. induction l as [|[i g] t IH]; intros b Hl Hinv; cbn [fold_left].
  { split; [exact Hinv|]. split; [auto|]. intro H. exfalso. apply H. reflexivity. }
  assert (Hig : In (i, g) groups /\ size g = 1) by exact (Hl (i, g) (or_introl eq_refl)).
  assert (Ht : forall e, In e t -> In e groups /\ size (snd e) = 1) by (intros e He; apply Hl; right; exact He).
  assert (Hstep : exists lv, categorize_single b (i, g) = add_to b lv i /\
                    (lv = UNLEARNED -> b_needs_practice b <> [])).
  { unfold categorize_single. destruct (level_eqb (proficiency g) UNLEARNED) eqn:Eu.
    - destruct (b_needs_practice b) as [|x xs] eqn:En.
      + exists NEEDS_PRACTICE. split; [reflexivity|discriminate].
      + exists UNLEARNED. split; [reflexivity|discriminate].
    - exists (proficiency g). split; [reflexivity|].
      intro E. rewrite E in Eu. discriminate. }
  destruct Hstep as [lv [Hs Hlv]]. rewrite Hs.
  assert (Hinv' : buckets_inv groups (add_to b lv i))
    by (apply (add_to_inv groups b lv i g Hinv (proj1 Hig)); [lia|exact Hlv]).
  destruct (IH (add_to b lv i) Ht Hinv') as [Hi' [Hg' _]].
  split; [exact Hi'|]. split.
  - intros l' Hne. apply Hg', add_to_grows, Hne.
  - intros _. exists lv. apply Hg', add_to_nonempty.
Qed.

Lemma filter_nonempty {A} (f : A -> bool) l :
  filter f l <> [] <-> exists x, In x l /\ f x = true.
Proof.
  split.
  - intro H. destruct (filter f l) as [|x t] eqn:E; [exfalso; apply H; reflexivity|].
    exists x. apply filter_In. rewrite E. left. reflexivity.
  - intros [x Hx] E. apply filter_In in Hx. rewrite E in Hx. destruct Hx.
Qed.

Lemma component_measures_nonempty groups g :
  component_measures groups g <> [] <->
  exists j h, In (j, h) groups /\ size h = 1 /\ start g <= start h /\ end_ h <= end_ g.
Proof.
  unfold component_measures. split.
  - intro H. apply filter_nonempty in H as [[j h] [Hin Hc]].
    rewrite !andb_true_iff, Z.eqb_eq, !Z.leb_le in Hc. exists j, h. tauto.
  - intros [j [h Hjh]]. apply filter_nonempty. exists (j, h).
    rewrite !andb_true_iff, Z.eqb_eq, !Z.leb_le. tauto.
Qed.

Lemma categorize_spec groups :
  (categorize_measures groups = TypeError <->
   exists i g j h, In (i, g) groups /\ In (j, h) groups /\ 1 < size g /\ size h = 1 /\
     start g <= start h /\ end_ h <= end_ g) /\
  (categorize_measures groups = TypeError \/
   exists b, categorize_measures groups = Ret b /\ buckets_inv groups b /\
     ((exists i g, In (i, g) groups /\ 1 <= size g) -> exists lv, bucket b lv <> [])).
Proof.
  set (multi := filter (fun '(_, g) => 1 <? size g) groups).
  set (single := filter (fun '(_, g) => size g =? 1) groups).
  assert (Hm : forall e, In e multi -> In e groups /\ 1 < size (snd e)).
  { intros [i g] He. unfold multi in He. apply filter_In in He as [He Hs].
    apply Z.ltb_lt in Hs. auto. }
  assert (Hs : forall e, In e single -> In e groups /\ size (snd e) = 1).
  { intros [i g] He. unfold single in He. apply filter_In in He as [He Hs].
    apply Z.eqb_eq in Hs. auto. }
  assert (Hinv0 : buckets_inv groups empty_buckets).
  { split; [intro H; exfalso; apply H; reflexivity|]. intros [] x []. }
  pose proof (component_measures_nonempty groups) as Hcomp.
  unfold categorize_measures. fold multi single.
  destruct (multi_fold_spec groups multi empty_buckets Hm Hinv0)
    as [[He [[i g] [Hin Hc]]]|[b [Hf [Hinv [Hc [_ Hne]]]]]].
  - rewrite He. split; [split; [intros _|reflexivity]|left; reflexivity].
    apply Hcomp in Hc as [j [h [Hjh [H1 [H2 H3]]]]].
    apply Hm in Hin as [Hin Hsz]. exists i, g, j, h. simpl in Hsz. repeat split; assumption.
  - rewrite Hf.
    destruct (single_fold_spec groups single b Hs Hinv) as [Hinv' [Hgrow Hne']].
    split.
    + split; [discriminate|]. intros [i [g [j [h [Hig [Hjh [H1 [H2 [H3 H4]]]]]]]]].
      exfalso. assert (Hmi : In (i, g) multi) by (apply filter_In; split; [exact Hig|apply Z.ltb_lt, H1]).
      apply Hc in Hmi. simpl in Hmi. revert Hmi. apply Hcomp. exists j, h. auto.
    + right. exists (fold_left categorize_single single b). split; [reflexivity|].
      split; [exact Hinv'|]. intros [i [g [Hig Hsz]]].
      destruct (Z.eqb_spec (size g) 1) as [E1|E1].
      * apply Hne'. intro E. assert (Hsi : In (i, g) single)
          by (apply filter_In; split; [exact Hig|apply Z.eqb_eq, E1]).
        rewrite E in Hsi. destruct Hsi.
      * assert (Hmi : In (i, g) multi) by (apply filter_In; split; [exact Hig|apply Z.ltb_lt; lia]).
        assert (Hmn : multi <> []) by (intro E; rewrite E in Hmi; destruct Hmi).
        destruct (Hne Hmn) as [lv Hlv]. exists lv. apply Hgrow, Hlv.
Qed.

(** X13 ([categorize_measures]): the function raises [TypeError] exactly
    when some multi-measure group (size above 1) contains a single-measure
    group (its start and end inside the range): the [>=] between two
    members of the plain [Enum] ProficiencyLevel is then evaluated. *)
Theorem categorize_measures_type_error groups :
  categorize_measures groups = TypeError <->
  exists i g j h, In (i, g) groups /\ In (j, h) groups /\ 1 < size g /\ size h = 1 /\
    start g <= start h /\ end_ h <= end_ g.
Proof. apply categorize_spec. Qed.

(** ** [get_measure_proficiencies] *)

Lemma dict_set_In k v m e : In e (dict_set k v m) -> In e m \/ e = (k, v).
Proof.
  induction m as [|[k' v'] t IH]; simpl; [intros [<-|[]]; right; reflexivity|].
  destruct (Z.eqb_spec k' k) as [->|_]; simpl.
  - intros [<-|H]; [right; reflexivity|left; right; exact H].
  - intros [<-|H]; [left; left; reflexivity|].
    destruct (IH H) as [H'|H']; [left; right; exact H'|right; exact H'].
Qed.

Lemma dict_set_fresh k v m : ~ In k (map fst m) -> dict_set k v m = m ++ [(k, v)].
Proof.
  induction m as [|[k' v'] t IH]; simpl; [reflexivity|].
  intro H. destruct (Z.eqb_spec k' k) as [->|_]; [exfalso; apply H; left; reflexivity|].
  rewrite IH; [reflexivity|]. intro H'. apply H. right. exact H'.
Qed.

Lemma dict_lookup_In k m g : In (k, g) m -> exists g', dict_lookup k m = Some g' /\ In (k, g') m.
Proof.
  induction m as [|[k' v'] t IH]; simpl; [intros []|].
  intros [E|H].
  - injection E as -> ->. rewrite Z.eqb_refl. exists g. auto.
  - destruct (Z.eqb_spec k' k) as [->|_]; [exists v'; auto|].
    destruct (IH H) as [g' [E H']]. exists g'. auto.
Qed.

Lemma dict_lookup_some k m g : dict_lookup k m = Some g -> In (k, g) m.
Proof.
  induction m as [|[k' v'] t IH]; simpl; [discriminate|].
  destruct (Z.eqb_spec k' k) as [->|_]; [intro E; injection E as ->; left; reflexivity|].
  intro H. right. apply IH, H.
Qed.

Lemma append_rating_In k r m i g :
  In (i, g) (append_rating k r m) ->
  exists g0, In (i, g0) m /\ start g = start g0 /\ end_ g = end_ g0.
Proof.
  unfold append_rating. intro H. apply in_map_iff in H as [[k' g0] [E Hin]].
  destruct (k' =? k); injection E as -> <-; exists g0; simpl; auto.
Qed.

Lemma append_rating_In_inv k r m i g0 :
  In (i, g0) m ->
  exists g, In (i, g) (append_rating k r m) /\ start g = start g0 /\ end_ g = end_ g0.
Proof.
  unfold append_rating. intro H.
  exists (if i =? k then MkMeasureGroup (id g0) (start g0) (end_ g0) (all_ratings g0 ++ [r]) else g0).
  split; [|destruct (i =? k); simpl; auto].
  apply in_map_iff. exists (i, g0). split; [destruct (i =? k); reflexivity|exact H].
Qed.

Lemma add_practice_In rows acc i g :
  In (i, g) (fold_left add_practice rows acc) ->
  exists g0, In (i, g0) acc /\ start g = start g0 /\ end_ g = end_ g0.
Proof.
  revert acc g. induction rows as [|ps t IH]; intros acc g H; simpl in H; [exists g; auto|].
  destruct (IH _ _ H) as [g1 [H1 [E1 E2]]]. unfold add_practice in H1.
  destruct (dict_lookup (ps_measure_group_id ps) acc); [|exists g1; auto].
  destruct (append_rating_In _ _ _ _ _ H1) as [g0 [H0 [F1 F2]]].
  exists g0. split; [exact H0|]. split; congruence.
Qed.

Lemma add_practice_In_inv rows acc i g0 :
  In (i, g0) acc ->
  exists g, In (i, g) (fold_left add_practice rows acc) /\ start g = start g0 /\ end_ g = end_ g0.
Proof.
  revert acc g0. induction rows as [|ps t IH]; intros acc g0 H; simpl; [exists g0; auto|].
  assert (Hs : exists g1, In (i, g1) (add_practice acc ps) /\ start g1 = start g0 /\ end_ g1 = end_ g0).
  { unfold add_practice. destruct (dict_lookup (ps_measure_group_id ps) acc);
      [apply append_rating_In_inv, H|exists g0; auto]. }
  destruct Hs as [g1 [H1 [E1 E2]]]. destruct (IH _ _ H1) as [g [Hg [F1 F2]]].
  exists g. split; [exact Hg|]. split; congruence.
Qed.

Lemma add_group_In rows acc i g :
  In (i, g) (fold_left add_group rows acc) ->
  In (i, g) acc \/
  exists r, In r rows /\ i = mg_id r /\ g = MkMeasureGroup (mg_id r) (start_measure r) (end_measure r) [].
Proof.
  revert acc. induction rows as [|r t IH]; intros acc H; simpl in H; [left; exact H|].
  destruct (IH _ H) as [H1|[r' [Hr' E]]]; [|right; exists r'; split; [right; exact Hr'|exact E]].
  unfold add_group in H1. apply dict_set_In in H1 as [H1|E]; [left; exact H1|].
  injection E as -> ->. right. exists r. split; [left; reflexivity|auto].
Qed.

Lemma add_group_fresh rows acc :
  NoDup (map mg_id rows) -> (forall r, In r rows -> ~ In (mg_id r) (map fst acc)) ->
  fold_left add_group rows acc =
  acc ++ map (fun r => (mg_id r, MkMeasureGroup (mg_id r) (start_measure r) (end_measure r) [])) rows.
Proof.
  revert acc. induction rows as [|r t IH]; intros acc Hnd Hf; simpl; [rewrite app_nil_r; reflexivity|].
  inversion Hnd as [|x l Hx Hnd' E]; subst.
  unfold add_group at 2. rewrite dict_set_fresh by (apply Hf; left; reflexivity).
  rewrite IH; [rewrite <- app_assoc; reflexivity|exact Hnd'|].
  intros r' Hr'. rewrite map_app. simpl. rewrite in_app_iff. intros [H|[H|[]]].
  - exact (Hf r' (or_intror Hr') H).
  - apply Hx. rewrite H. apply in_map, Hr'.
Qed.

Lemma NoDup_map_filter {A B} (f : A -> B) (p : A -> bool) l :
  NoDup (map f l) -> NoDup (map f (filter p l)).
Proof.
  induction l as [|x t IH]; simpl; [auto|].
  intro H. inversion H as [|y l Hy Ht E]; subst.
  destruct (p x); simpl; [|apply IH, Ht]. constructor; [|apply IH, Ht].
  intro Hin. apply Hy. apply in_map_iff in Hin as [z [Ez Hz]].
  rewrite <- Ez. apply in_map. apply filter_In in Hz. apply Hz.
Qed.

(** Every entry of the dict comes from a row of the song, range included;
    with unique group ids, every row of the song has its entry. *)
Lemma gmp_entry_row d song_id i g :
  In (i, g) (get_measure_proficiencies d song_id) ->
  exists r, In r (measure_groups d) /\ mg_song_id r = song_id /\ mg_id r = i /\
    start_measure r = start g /\ end_measure r = end_ g.
Proof.
  unfold get_measure_proficiencies. intro H.
  apply add_practice_In in H as [g0 [H0 [E1 E2]]].
  apply add_group_In in H0 as [[]|[r [Hr [-> ->]]]].
  unfold group_rows in Hr. apply filter_In in Hr as [Hr Hs]. apply Z.eqb_eq in Hs.
  exists r. simpl in *. repeat split; auto.
Qed.

Lemma gmp_row_entry d song_id r :
  NoDup (map mg_id (measure_groups d)) ->
  In r (measure_groups d) -> mg_song_id r = song_id ->
  exists g, In (mg_id r, g) (get_measure_proficiencies d song_id) /\
    start g = start_measure r /\ end_ g = end_measure r.
Proof.
  intros Hnd Hr Hs. unfold get_measure_proficiencies.
  rewrite add_group_fresh; [|apply NoDup_map_filter, Hnd|intros r' _ []].
  simpl. apply (add_practice_In_inv _ _ _ (MkMeasureGroup (mg_id r) (start_measure r) (end_measure r) [])).
  apply in_map_iff. exists r. split; [reflexivity|].
  unfold group_rows. apply filter_In. split; [exact Hr|apply Z.eqb_eq, Hs].
Qed.

(** ** [get_next_measure] *)

Section NextMeasureFacts.

Variable iter_order : list Z -> list Z.
Hypothesis iter_order_perm : forall l, Permutation (iter_order l) l.

Lemma keyed_some groups ids :
  (forall x, In x ids -> exists g, In (x, g) groups) ->
  exists l, keyed groups ids = Some l /\ map fst l = ids.
Proof.
  induction ids as [|x t IH]; intro H; simpl; [exists []; auto|].
  destruct (H x (or_introl eq_refl)) as [g Hg]. apply dict_lookup_In in Hg as [g' [E _]].
  destruct IH as [l [El Ml]]; [intros y Hy; apply H; right; exact Hy|].
  rewrite E, El. exists ((x, List.length (all_ratings g')) :: l). simpl. rewrite Ml. auto.
Qed.

Lemma fold_min_In (all : list (Z * nat)) t cur :
  In cur all -> (forall y, In y t -> In y all) ->
  In (fold_left (fun cur y => if Nat.ltb (snd y) (snd cur) then y else cur) t cur) all.
Proof.
  revert cur. induction t as [|y u IH]; intros cur Hc Hsub; simpl; [exact Hc|].
  apply IH; [destruct (Nat.ltb _ _); [apply Hsub; left; reflexivity|exact Hc]|].
  intros z Hz. apply Hsub. right. exact Hz.
Qed.

Lemma min_by_key_In l i : min_by_key l = Some i -> In i (map fst l).
Proof.
  destruct l as [|x t]; simpl; [discriminate|]. intro E. injection E as <-.
  apply (in_map fst (x :: t)). apply fold_min_In; [left; reflexivity|].
  intros y Hy. right. exact Hy.
Qed.

Lemma pick_min_spec groups s lv :
  s <> [] -> (forall x, In x s -> exists g, In (x, g) groups) ->
  exists i, pick_min iter_order groups s lv = Ret (i, lv) /\ In i s.
Proof.
  intros Hne Hs. unfold pick_min.
  destruct (keyed_some groups (iter_order s)) as [l [El Ml]].
  { intros x Hx. apply Hs. apply (Permutation_in _ (iter_order_perm s)), Hx. }
  rewrite El. destruct (min_by_key l) as [i|] eqn:Em.
  - exists i. split; [reflexivity|]. apply min_by_key_In in Em. rewrite Ml in Em.
    apply (Permutation_in _ (iter_order_perm s)), Em.
  - exfalso. destruct l as [|y t]; [|discriminate].
    apply Hne. simpl in Ml. symmetry in Ml.
    pose proof (Permutation_length (iter_order_perm s)) as Hl. rewrite Ml in Hl.
    destruct s; [reflexivity|discriminate].
Qed.

Lemma py_next_spec s :
  (s <> [] -> exists i, py_next iter_order s = Some i /\ In i s) /\
  (s = [] -> py_next iter_order s = None).
Proof.
  unfold py_next. pose proof (iter_order_perm s) as Hp. split.
  - intro Hne. destruct (iter_order s) as [|x t] eqn:E.
    + exfalso. apply Hne. apply Permutation_nil. exact Hp.
    + exists x. split; [reflexivity|]. apply (Permutation_in _ Hp). left. reflexivity.
  - intros ->. rewrite (Permutation_nil (Permutation_sym Hp)). reflexivity.
Qed.

Lemma next_from_buckets_spec groups b :
  buckets_inv groups b ->
  match next_from_buckets iter_order groups b with
  | Ret (i, lv) => lv <> UNLEARNED /\ exists l, In i (bucket b l)
  | StopIteration => forall l, bucket b l = []
  | _ => False
  end.
Proof.
  intros [Hu Hin].
  assert (Hk : forall l s, bucket b l = s -> forall x, In x s -> exists g, In (x, g) groups).
  { intros l s Hs x Hx. subst s. destruct (Hin l x Hx) as [g [Hg _]]. eauto. }
  unfold next_from_buckets.
  destruct (b_needs_practice b) as [|n ns] eqn:En.
  { destruct (b_unlearned b) as [|u us] eqn:Eu.
    2:{ exfalso. apply Hu; [discriminate|reflexivity]. }
    destruct (b_decent b) as [|x xs] eqn:Ed.
    - destruct (b_proficient b) as [|p ps] eqn:Ep.
      + rewrite (proj2 (py_next_spec []) eq_refl). intros []; simpl; assumption.
      + destruct (proj1 (py_next_spec (p :: ps)) ltac:(discriminate)) as [i [Ei Hi]].
        rewrite Ei. split; [discriminate|]. exists PROFICIENT. simpl. rewrite Ep. exact Hi.
    - destruct (proj1 (py_next_spec (x :: xs)) ltac:(discriminate)) as [i [Ei Hi]].
      rewrite Ei. split; [discriminate|]. exists DECENT. simpl. rewrite Ed. exact Hi. }
  destruct (pick_min_spec groups (n :: ns) NEEDS_PRACTICE ltac:(discriminate)
              (Hk NEEDS_PRACTICE _ En)) as [i [Ei Hi]].
  rewrite Ei. split; [discriminate|]. exists NEEDS_PRACTICE. simpl. rewrite En. exact Hi.
Qed.

(** X14 ([get_next_measure] of generate_measures.py), for any iteration
    order of the sets and unique group ids: a song id outside the signed
    64-bit range makes the first query raise [OverflowError]; for an id
    inside it, the function never answers the
    UNLEARNED level, and any id it answers is a group of the song with
    [start <= end]; it raises [TypeError] exactly when some group of the song
    spanning several measures contains a single-measure group of the song,
    and [StopIteration] exactly when no group of the song has
    [start <= end]; it never raises [KeyError], [ValueError] or
    [OverflowError]. *)
Theorem next_measure_outcomes d song_id :
  NoDup (map mg_id (measure_groups d)) ->
  (sqlite_int_ok song_id = false -> get_next_measure iter_order d song_id = OverflowError) /\
  (sqlite_int_ok song_id = true ->
  (forall i lv, get_next_measure iter_order d song_id = Ret (i, lv) ->
     lv <> UNLEARNED /\
     exists r, In r (measure_groups d) /\ mg_song_id r = song_id /\ mg_id r = i /\
       start_measure r <= end_measure r) /\
  (get_next_measure iter_order d song_id = TypeError <->
   exists r q, In r (measure_groups d) /\ In q (measure_groups d) /\
     mg_song_id r = song_id /\ mg_song_id q = song_id /\
     start_measure r < end_measure r /\ start_measure q = end_measure q /\
     start_measure r <= start_measure q /\ end_measure q <= end_measure r) /\
  (get_next_measure iter_order d song_id = StopIteration <->
   forall r, In r (measure_groups d) -> mg_song_id r = song_id -> end_measure r < start_measure r) /\
  get_next_measure iter_order d song_id <> KeyError /\
  get_next_measure iter_order d song_id <> ValueError /\
  get_next_measure iter_order d song_id <> OverflowError).
Proof.
  intro Hnd. split; [intro E; unfold get_next_measure; rewrite E; reflexivity|].
  intro Hint.
  set (groups := get_measure_proficiencies d song_id).
  destruct (categorize_spec groups) as [Hte Hcases].
  (* the TypeError condition on rows *)
  assert (Hrows : (exists i g j h, In (i, g) groups /\ In (j, h) groups /\ 1 < size g /\
                     size h = 1 /\ start g <= start h /\ end_ h <= end_ g) <->
                  exists r q, In r (measure_groups d) /\ In q (measure_groups d) /\
                     mg_song_id r = song_id /\ mg_song_id q = song_id /\
                     start_measure r < end_measure r /\ start_measure q = end_measure q /\
                     start_measure r <= start_measure q /\ end_measure q <= end_measure r).
  { unfold size. split.
    - intros [i [g [j [h [Hg [Hh [H1 [H2 [H3 H4]]]]]]]]].
      destruct (gmp_entry_row _ _ _ _ Hg) as [r [Hr [Hrs [_ [Er1 Er2]]]]].
      destruct (gmp_entry_row _ _ _ _ Hh) as [q [Hq [Hqs [_ [Eq1 Eq2]]]]].
      exists r, q. repeat split; auto; lia.
    - intros [r [q [Hr [Hq [Hrs [Hqs [H1 [H2 [H3 H4]]]]]]]]].
      destruct (gmp_row_entry _ _ _ Hnd Hr Hrs) as [g [Hg [Eg1 Eg2]]].
      destruct (gmp_row_entry _ _ _ Hnd Hq Hqs) as [h [Hh [Eh1 Eh2]]].
      exists (mg_id r), g, (mg_id q), h. repeat split; auto; lia. }
  assert (Hsz : (exists i g, In (i, g) groups /\ 1 <= size g) <->
                exists r, In r (measure_groups d) /\ mg_song_id r = song_id /\
                  start_measure r <= end_measure r).
  { unfold size. split.
    - intros [i [g [Hg H1]]].
      destruct (gmp_entry_row _ _ _ _ Hg) as [r [Hr [Hrs [_ [Er1 Er2]]]]].
      exists r. repeat split; auto; lia.
    - intros [r [Hr [Hrs H1]]].
      destruct (gmp_row_entry _ _ _ Hnd Hr Hrs) as [g [Hg [Eg1 Eg2]]].
      exists (mg_id r), g. split; [exact Hg|lia]. }
  assert (Hnone : (forall r, In r (measure_groups d) -> mg_song_id r = song_id ->
                     end_measure r < start_measure r) <->
                  ~ exists r, In r (measure_groups d) /\ mg_song_id r = song_id /\
                      start_measure r <= end_measure r).
  { split.
    - intros H [r [Hr [Hrs Hle]]]. specialize (H r Hr Hrs). lia.
    - intros H r Hr Hrs. destruct (Z.lt_ge_cases (end_measure r) (start_measure r)); [auto|].
      exfalso. apply H. exists r. auto. }
  unfold get_next_measure. rewrite Hint. simpl negb. cbv iota. fold groups.
  destruct Hcases as [Ete|[b [Eb [Hinv Hne]]]].
  - rewrite Ete. split; [intros i lv E; discriminate|].
    split; [split; [intros _; apply Hrows, Hte, Ete|reflexivity]|].
    split; [|split; [discriminate|split; discriminate]].
    rewrite Hnone. split; [discriminate|]. intro H. exfalso. apply H.
    apply Hte, Hrows in Ete as [r [q [Hr [_ [Hrs [_ [Hlt _]]]]]]].
    exists r. split; [exact Hr|]. split; [exact Hrs|lia].
  - rewrite Eb. pose proof (next_from_buckets_spec groups b Hinv) as Hspec.
    destruct (next_from_buckets iter_order groups b) as [[i lv]| | | | |] eqn:En;
      try contradiction.
    + split.
      * intros i' lv' E. injection E as <- <-. destruct Hspec as [Hlv [l Hl]].
        split; [exact Hlv|]. destruct Hinv as [_ Hin].
        destruct (Hin l i Hl) as [g [Hg H1]].
        destruct (gmp_entry_row _ _ _ _ Hg) as [r [Hr [Hrs [Hri [Er1 Er2]]]]].
        exists r. unfold size in H1. repeat split; auto; lia.
      * split; [split; [discriminate|intro H; apply Hrows, Hte in H; congruence]|].
        split; [|split; [discriminate|split; discriminate]].
        rewrite Hnone. split; [discriminate|]. intro H. exfalso. apply H.
        destruct Hspec as [_ [l Hl]]. destruct Hinv as [_ Hin].
        apply Hsz. destruct (Hin l i Hl) as [g [Hg H1]]. eauto.
    + split; [intros i lv E; discriminate|].
      split; [split; [discriminate|intro H; apply Hrows, Hte in H; congruence]|].
      split; [|split; [discriminate|split; discriminate]].
      rewrite Hnone. split; [|reflexivity]. intros _ Hex.
      apply Hsz in Hex. destruct (Hne Hex) as [l Hl]. apply Hl, Hspec.
Qed.

End NextMeasureFacts.

(** On [db_overlap] (a single measure 3 inside the group 3..5 of song 1,
    unique ids) the identity iteration order meets the hypotheses. *)
Lemma next_measure_outcomes_witness :
  NoDup (map mg_id (measure_groups db_overlap)) /\
  get_next_measure (fun l => l) db_overlap 1 = TypeError.
Proof.
  assert (Hnd : NoDup (map mg_id (measure_groups db_overlap))).
  { simpl. constructor; [simpl; intros [H|[]]; discriminate|].
    constructor; [intros []|constructor]. }
  split; [exact Hnd|].
  apply (proj2 (proj1 (proj2 (proj2 (next_measure_outcomes (fun l => l) (fun l => Permutation_refl l)
           db_overlap 1 Hnd) eq_refl)))).
  simpl. eexists; eexists.
  split; [right; left; reflexivity|]. split; [left; reflexivity|].
  simpl. repeat split; lia.
Defined.

Lemma ibt_perm ps l : Permutation (insert_by_time ps l) (ps :: l).
Proof.
  induction l as [|x t IH]; simpl; [reflexivity|].
  destruct (practiced_at x <=? practiced_at ps); [|reflexivity].
  rewrite IH. apply perm_swap.
Qed.

Lemma ibt_hd x ps l :
  HdRel by_time x l -> by_time x ps -> HdRel by_time x (insert_by_time ps l).
Proof.
  destruct l as [|y t]; simpl; intros H1 H2; [constructor; exact H2|].
  destruct (practiced_at y <=? practiced_at ps); constructor; [inversion H1; assumption|exact H2].
Qed.

Lemma ibt_sorted ps l : Sorted by_time l -> Sorted by_time (insert_by_time ps l).
Proof.
  induction l as [|x t IH]; simpl; intro Hs; [constructor; constructor|].
  apply Sorted_inv in Hs as [Ht Hx].
  destruct (practiced_at x <=? practiced_at ps) eqn:E.
  - constructor; [exact (IH Ht)|]. apply ibt_hd; [exact Hx|]. apply Z.leb_le, E.
  - constructor; [constructor; assumption|]. constructor. apply Z.leb_gt in E.
    unfold by_time. lia.
Qed.

Lemma practice_rows_perm d song_id :
  Permutation (practice_rows d song_id)
              (filter (fun ps => ps_song_id ps =? song_id) (practice_sessions d)).
Proof.
  unfold practice_rows. rewrite (Permutation_rev (filter _ _)) at 2.
  induction (rev (filter (fun ps => ps_song_id ps =? song_id) (practice_sessions d)))
    as [|x t IH]; simpl; [reflexivity|].
  rewrite ibt_perm. apply perm_skip, IH.
Qed.

Lemma practice_rows_sorted d song_id : Sorted by_time (practice_rows d song_id).
Proof.
  unfold practice_rows.
  induction (rev (filter (fun ps => ps_song_id ps =? song_id) (practice_sessions d)))
    as [|x t IH]; simpl; [constructor|].
  apply ibt_sorted, IH.
Qed.

Lemma strongly_sorted_filter {A} (R : A -> A -> Prop) f l :
  StronglySorted R l -> StronglySorted R (filter f l).
Proof.
  induction l as [|x t IH]; simpl; intro H; [constructor|].
  apply StronglySorted_inv in H as [Ht Hx].
  destruct (f x); [|exact (IH Ht)]. constructor; [exact (IH Ht)|].
  rewrite Forall_forall in *. intros y Hy. apply filter_In in Hy as [Hy _]. exact (Hx y Hy).
Qed.

Lemma permutation_filter {A} f (l l' : list A) :
  Permutation l l' -> Permutation (filter f l) (filter f l').
Proof.
  induction 1 as [|x l l' _ IH|x y l|l l' l'' _ IH1 _ IH2]; simpl.
  - constructor.
  - destruct (f x); [apply perm_skip|]; exact IH.
  - destruct (f x), (f y); try reflexivity; apply perm_swap.
  - rewrite IH1. exact IH2.
Qed.

Lemma filter_filter_and {A} f g (l : list A) :
  filter g (filter f l) = filter (fun x => f x && g x) l.
Proof.
  induction l as [|x t IH]; simpl; [reflexivity|].
  destruct (f x); simpl; [destruct (g x); rewrite IH; reflexivity|exact IH].
Qed.

Lemma dict_lookup_append_rating k k' r m :
  dict_lookup k' (append_rating k r m) =
  option_map (fun g => if k =? k' then MkMeasureGroup (id g) (start g) (end_ g) (all_ratings g ++ [r])
                       else g) (dict_lookup k' m).
Proof.
  induction m as [|[k0 g0] t IH]; simpl; [reflexivity|].
  destruct (Z.eqb_spec k0 k) as [->|Hk]; simpl.
  - destruct (Z.eqb_spec k k') as [->|Hk']; simpl; [reflexivity|exact IH].
  - destruct (Z.eqb_spec k0 k') as [->|Hk']; simpl; [|exact IH].
    apply Z.eqb_neq in Hk. rewrite Z.eqb_sym, Hk. reflexivity.
Qed.

Lemma dict_lookup_fold_add_practice k rows acc :
  dict_lookup k (fold_left add_practice rows acc) =
  option_map (fun g => MkMeasureGroup (id g) (start g) (end_ g)
                 (all_ratings g ++ map rating (filter (fun ps => ps_measure_group_id ps =? k) rows)))
             (dict_lookup k acc).
Proof.
  revert acc. induction rows as [|ps t IH]; intro acc; simpl.
  - destruct (dict_lookup k acc) as [[]|]; simpl; [rewrite app_nil_r|]; reflexivity.
  - rewrite IH. unfold add_practice.
    destruct (dict_lookup (ps_measure_group_id ps) acc) as [g1|] eqn:E1.
    + rewrite dict_lookup_append_rating.
      destruct (dict_lookup k acc) as [g|]; [|reflexivity]. simpl.
      destruct (ps_measure_group_id ps =? k); simpl; [rewrite <- app_assoc|]; reflexivity.
    + destruct (dict_lookup k acc) as [g|] eqn:E; [|reflexivity]. simpl.
      destruct (Z.eqb_spec (ps_measure_group_id ps) k) as [Ek|_]; [rewrite Ek, E in E1; discriminate|].
      reflexivity.
Qed.

(** X15 ([get_measure_proficiencies] of generate_measures.py): the ratings
    collected for a group are the ratings of the song's practice sessions of
    that group and of no other, each once, in non-decreasing order of
    [practiced_at]; the entry carries its own key as its id. *)
Theorem group_ratings_history d song_id k g :
  dict_lookup k (get_measure_proficiencies d song_id) = Some g ->
  id g = k /\
  exists ss, all_ratings g = map rating ss /\
    Permutation ss (filter (fun ps => (ps_song_id ps =? song_id) && (ps_measure_group_id ps =? k))
                           (practice_sessions d)) /\
    Sorted (fun a b => practiced_at a <= practiced_at b) ss.
Proof.
  unfold get_measure_proficiencies. rewrite dict_lookup_fold_add_practice.
  destruct (dict_lookup k (fold_left add_group (group_rows d song_id) [])) as [g0|] eqn:E;
    [|discriminate].
  simpl. intro Eg. injection Eg as <-. simpl.
  apply dict_lookup_some, add_group_In in E as [[]|[r [_ [-> ->]]]]. simpl.
  split; [reflexivity|].
  exists (filter (fun ps => ps_measure_group_id ps =? mg_id r) (practice_rows d song_id)).
  split; [reflexivity|]. split.
  - rewrite <- filter_filter_and. apply permutation_filter, practice_rows_perm.
  - apply StronglySorted_Sorted, strongly_sorted_filter, Sorted_StronglySorted;
      [|apply practice_rows_sorted].
    intros a b c. unfold by_time. lia.
Qed.

(** On [db_two_singles] the group 10 of song 1 has an entry, rated twice. *)
Lemma group_ratings_history_witness :
  exists g, dict_lookup 10 (get_measure_proficiencies db_two_singles 1) = Some g /\
  id g = 10 /\
  exists ss, all_ratings g = map rating ss /\
    Permutation ss (filter (fun ps => (ps_song_id ps =? 1) && (ps_measure_group_id ps =? 10))
                           (practice_sessions db_two_singles)) /\
    Sorted (fun a b => practiced_at a <= practiced_at b) ss.
Proof.
  eexists. split; [reflexivity|].
  apply (group_ratings_history db_two_singles 1 10). reflexivity.
Defined.

End GenerateMeasuresFacts.
